(** * Galaxy: planning and applying per-environment release overlays

    A shallow embedding of the Go package [galaxy] (files [galaxy.go] and
    the [.galaxy.yaml] model, [DotGalaxy]) and the properties of its
    orchestrator: [Inspect], [Plan], [Apply], [Loop], [probeSingleEnv] and
    [GetEnvironment].

    Conventions of the embedding.
    - Go structs are records, slices are lists, Go maps are [gmap]s.
    - A Go [error] value is a term of the inductive [error]; [Error] renders
      the message the Go code builds.  A function returning [(T, error)] is a
      function into [result T]; one returning only [error] is a function into
      [result unit].
    - Methods of [*Galaxy] that write the receiver's maps are computations
      of the monad [M]: the state is threaded and survives a failure, as the
      Go receiver does when a method returns a non-nil error.
    - A run of a method has an [outcome]: the method returns, or the
      process exits inside it.  The package logs through logrus, whose
      Fatal-level calls write the entry and then call [os.Exit(1)]: the one
      Fatal-level call of [Loop] is an event of the run followed by the exit
      of the process, and the [return err] written after it is never reached.
    - Logging calls at the Info and Debug levels have no effect on the
      result or on the receiver and are left out.
    - Code the orchestrator calls but which lives in other files of the
      package (the file inspector, the planner, the two appliers, the
      runtime configuration accessors) or in the host (the file system, the
      order in which a Go map is ranged over) is taken as a parameter of the
      section that needs it. *)

From Stdlib Require Import Ascii.
From stdpp Require Import base option list gmap strings.

Set Default Proof Using "Type".

(** ** Errors *)

(** The error values: one constructor per construction site in [galaxy.go]
    and in the [.galaxy.yaml] model, [NamespaceConflict] for the planner's
    collision error, and [Foreign] for an error returned by any other code
    (the file inspector, the appliers). *)
Inductive error : Type :=
| BaseDirNotFound (baseDir : string)
| SingleEnvironmentRequired
| NotOnPlannedData (envName : string)
| NotOnOriginalNamespaces (envName : string)
| NamespaceDoesNotExist (name : string)
| BaseDirNotDirectory (baseDir : string)
| EnvironmentNotFound (name : string)
| NamespaceConflict (transformed first second : string)
| Foreign (msg : string).

(** The text of the Go error ([err.Error()]). *)
Definition Error (e : error) : string :=
  match e with
  | BaseDirNotFound baseDir => "base directory not found at: " +:+ baseDir
  | SingleEnvironmentRequired => "a single environment must be informed"
  | NotOnPlannedData envName =>
      "environment '" +:+ envName +:+ "' is not found on planned data"
  | NotOnOriginalNamespaces envName =>
      "environment '" +:+ envName +:+ "' is not found on original namespace names map"
  | NamespaceDoesNotExist name => "namespace informed does not exist: " +:+ name
  | BaseDirNotDirectory baseDir => "baseDir is not a directory: " +:+ baseDir
  | EnvironmentNotFound name => "Environment is not found: " +:+ name
  | NamespaceConflict transformed first second =>
      "namespaces '" +:+ first +:+ "' and '" +:+ second +:+ "' both map to '"
        +:+ transformed +:+ "'"
  | Foreign msg => msg
  end.

(** The error kinds of the design (section 7 of the specification).  The Go
    code has a single error type; the kind of an error is read off the site
    that built it. *)
Inductive ErrorKind : Type :=
| NotFoundError
| ConflictError
| ConfigurationError
| NotPlannedError
| ExternalError.

Definition kindOf (e : error) : ErrorKind :=
  match e with
  | BaseDirNotFound _ | BaseDirNotDirectory _ => NotFoundError
  | NamespaceConflict _ _ _ => ConflictError
  | SingleEnvironmentRequired | NamespaceDoesNotExist _ | EnvironmentNotFound _ =>
      ConfigurationError
  | NotOnPlannedData _ | NotOnOriginalNamespaces _ => NotPlannedError
  | Foreign _ => ExternalError
  end.

Inductive result (A : Type) : Type :=
| Ok (a : A)
| Err (e : error).
Arguments Ok {A} a.
Arguments Err {A} e.

Definition isOk {A} (r : result A) : bool :=
  match r with Ok _ => true | Err _ => false end.

(** How a run of a method ends: it returns (a value or an error), or the
    process exits inside it with a status, and there is nothing to return
    to. *)
Inductive outcome (A : Type) : Type :=
| Returned (r : result A)
| Exited (status : nat).
Arguments Returned {A} r.
Arguments Exited {A} status.

(** ** The [.galaxy.yaml] model *)

Record Transform : Type := mkTransform {
  NamespaceSuffix : string;
  ReleasePrefix : string;
}.

Record Environment : Type := mkEnvironment {
  Name : string;
  SkipOnNamespaces : list string;
  FileSuffixes : list string;
  Environment_Transform : Transform;
}.

Record Namespaces : Type := mkNamespaces {
  BaseDir : string;
  Extensions : list string;
  Names : list string;
}.

Record Spec : Type := mkSpec {
  Spec_Environments : list Environment;
  Spec_Namespaces : Namespaces;
}.

Record DotGalaxy : Type := mkDotGalaxy {
  DotGalaxy_Spec : Spec;
}.

(** Modelled from the spec: [stringSliceContains], a helper of the package
    whose file is not among the sources; the specification uses it as
    membership of a name in a requested list ("skips environments not in the
    requested filter"). *)
Definition stringSliceContains (slice : list string) (s : string) : bool :=
  existsb (String.eqb s) slice.

Definition ListNamespaces (d : DotGalaxy) : list string :=
  Names (Spec_Namespaces (DotGalaxy_Spec d)).

(** [ListEnvironments] appends the name of each environment to a slice that
    starts out nil. *)
Definition ListEnvironments (d : DotGalaxy) : list string :=
  fold_left (fun list env => list ++ [Name env])
            (Spec_Environments (DotGalaxy_Spec d)) [].

(** The loop of [GetEnvironment]: return at the first environment whose name
    is the one asked for, fail when the range is exhausted. *)
Fixpoint lookupEnvironment (envs : list Environment) (name : string)
  : result Environment :=
  match envs with
  | [] => Err (EnvironmentNotFound name)
  | env :: rest =>
      if String.eqb name (Name env) then Ok env
      else lookupEnvironment rest name
  end.

Definition GetEnvironment (d : DotGalaxy) (name : string) : result Environment :=
  lookupEnvironment (Spec_Environments (DotGalaxy_Spec d)) name.

(** ** Facts on the model *)

Lemma stringSliceContains_true (slice : list string) (s : string) :
  stringSliceContains slice s = true ↔ s ∈ slice.
Proof.
  unfold stringSliceContains. rewrite existsb_exists. split.
  - intros (x & Hin & Heq). apply String.eqb_eq in Heq. subst x.
    by apply list_elem_of_In.
  - intros Hin. exists s. split; [by apply list_elem_of_In | apply String.eqb_refl].
Qed.

Lemma stringSliceContains_false (slice : list string) (s : string) :
  stringSliceContains slice s = false ↔ s ∉ slice.
Proof.
  rewrite <- stringSliceContains_true. destruct (stringSliceContains slice s); naive_solver.
Qed.

Lemma fold_left_snoc_names (envs : list Environment) (acc : list string) :
  fold_left (fun list env => list ++ [Name env]) envs acc = acc ++ map Name envs.
Proof.
  revert acc. induction envs as [|env envs IH]; intros acc; simpl.
  - by rewrite app_nil_r.
  - rewrite IH. by rewrite <- app_assoc.
Qed.

Lemma ListEnvironments_map (d : DotGalaxy) :
  ListEnvironments d = map Name (Spec_Environments (DotGalaxy_Spec d)).
Proof. unfold ListEnvironments. by rewrite fold_left_snoc_names. Qed.

Lemma lookupEnvironment_Ok (envs : list Environment) (name : string) (e : Environment) :
  lookupEnvironment envs name = Ok e ↔
  ∃ before after, envs = before ++ e :: after ∧ Name e = name ∧
                  Forall (fun x => Name x ≠ name) before.
Proof.
  induction envs as [|env envs IH]; simpl.
  - split; [done|]. intros (before & after & Heq & _). by destruct before.
  - destruct (String.eqb name (Name env)) eqn:Hcmp.
    + apply String.eqb_eq in Hcmp. split.
      * intros [= ->]. by exists [], envs.
      * intros (before & after & Heq & Hname & Hnot).
        destruct before as [|b before]; simpl in Heq.
        -- by inversion Heq.
        -- inversion Heq; subst. inversion Hnot; subst. congruence.
    + apply String.eqb_neq in Hcmp. rewrite IH. split.
      * intros (before & after & -> & Hname & Hnot).
        exists (env :: before), after. split_and!; [done..|].
        constructor; [congruence | done].
      * intros (before & after & Heq & Hname & Hnot).
        destruct before as [|b before]; simpl in Heq.
        -- inversion Heq; subst. congruence.
        -- inversion Heq; subst. inversion Hnot; subst. by exists before, after.
Qed.

Lemma lookupEnvironment_Err (envs : list Environment) (name : string) (err : error) :
  lookupEnvironment envs name = Err err ↔
  err = EnvironmentNotFound name ∧ Forall (fun x => Name x ≠ name) envs.
Proof.
  induction envs as [|env envs IH]; simpl.
  - split; [by intros [= <-] | by intros [-> _]].
  - destruct (String.eqb name (Name env)) eqn:Hcmp.
    + apply String.eqb_eq in Hcmp. split; [done|].
      intros [_ Hall]. inversion Hall; subst. congruence.
    + apply String.eqb_neq in Hcmp. rewrite IH. split.
      * intros [-> Hall]. split; [done|]. constructor; [congruence | done].
      * intros [-> Hall]. by inversion Hall; subst.
Qed.

(** C9.  [GetEnvironment] returns the first environment of the sequence whose
    [Name] is the requested one: it returns [e] exactly when the sequence
    splits as [before ++ e :: after] with [e] named as requested and no
    environment of [before] so named (so of two environments sharing a name
    the earlier one is returned); it returns an error exactly when no
    environment of the sequence has the name, and the error then is
    "Environment is not found: name". *)
Theorem GetEnvironment_first_match :
  ∀ (d : DotGalaxy) (name : string),
    (∀ e, GetEnvironment d name = Ok e ↔
          ∃ before after,
            Spec_Environments (DotGalaxy_Spec d) = before ++ e :: after ∧
            Name e = name ∧ Forall (fun x => Name x ≠ name) before) ∧
    ((∃ err, GetEnvironment d name = Err err) ↔
     Forall (fun x => Name x ≠ name) (Spec_Environments (DotGalaxy_Spec d))) ∧
    (∀ err, GetEnvironment d name = Err err →
            err = EnvironmentNotFound name ∧
            Error err = "Environment is not found: " +:+ name) ∧
    (∀ e1 e2 between after,
        Name e1 = name →
        Spec_Environments (DotGalaxy_Spec d) = e1 :: between ++ e2 :: after →
        GetEnvironment d name = Ok e1).
Proof.
  intros d name. unfold GetEnvironment. split_and!.
  - intros e. apply lookupEnvironment_Ok.
  - split.
    + intros [err Herr]. by apply lookupEnvironment_Err in Herr as [_ ?].
    + intros Hall. exists (EnvironmentNotFound name). by apply lookupEnvironment_Err.
  - intros err Herr. apply lookupEnvironment_Err in Herr as [-> _]. done.
  - intros e1 e2 between after Hname ->. simpl.
    subst name. by rewrite String.eqb_refl.
Qed.

(** ** Runtime configuration *)

(** The fields of [Config] that the orchestrator reads.  The three nested
    configurations (Kubernetes, Landscaper, Vault handler) are handed to the
    appliers unread. *)
Record Config : Type := mkConfig {
  DotGalaxyPath : string;
  DryRun : bool;
  Config_Environments : string;
  Config_Namespaces : string;
  LogLevel : string;
  SkipSecrets : bool;
}.

(** ** Calls on the external appliers, events of a run *)

(** The two appliers and their two methods, [Bootstrap] and [Apply]
    (written [ApplyChanges] here: [Apply] is the orchestrator's). *)
Inductive Applier : Type := VaultHandler | Landscaper.

Inductive Method : Type := Bootstrap | ApplyChanges.

(** An argument of a call on an applier: the calls of [Galaxy.Apply] pass
    strings and booleans. *)
Inductive Arg : Type :=
| AString (s : string)
| ABool (b : bool).

Record Call : Type := mkCall {
  receiver : Applier;
  method : Method;
  args : list Arg;
}.

Global Instance Applier_eq_dec : EqDecision Applier.
Proof. solve_decision. Defined.
Global Instance Method_eq_dec : EqDecision Method.
Proof. solve_decision. Defined.
Global Instance Arg_eq_dec : EqDecision Arg.
Proof. solve_decision. Defined.
Global Instance Call_eq_dec : EqDecision Call.
Proof. solve_decision. Defined.

(** What a run does besides returning: directory inspections, the
    Fatal-level log entry of [Loop] (written before the process exits), calls
    on the appliers. *)
Inductive Event : Type :=
| InspectedDir (ns baseDir : string) (exts : list string)
| LoggedFatal (e : error)
| Invoked (c : Call).

Section Orchestrator.

(** *** What the orchestrator is given *)

(** [*Context], with its constructor and the file inspector. *)
Variable Context : Type.
Variable NewContext : Context.
Variable InspectDir : Context → string → string → list string → result Context.

(** The file system and [path.Join]. *)
Variable isDir : string → bool.
Variable pathJoin : string → string → string.

(** [cfg.GetEnvironments()] and [cfg.GetNamespaces()]. *)
Variable GetEnvironments : Config → list string.
Variable GetNamespaces : Config → list string.

(** [NewPlan(env, namespaces, ctx)] followed by [ContextForEnvironment()]:
    the modified context together with the plan's [OriginalNs]. *)
Variable ContextForEnvironment :
  Environment → list string → Context → result (Context * gmap string string).

(** *** State *)

(** [Data]: environment name to list of contexts. *)
Abbreviation Data := (gmap string (list Context)) (only parsing).

Record Galaxy : Type := mkGalaxy {
  dotGalaxy : DotGalaxy;
  cfg : Config;
  original : Data;
  Modified : Data;
  envOriginalNs : gmap string (gmap string string);
}.

Definition NewGalaxy (d : DotGalaxy) (c : Config) : Galaxy :=
  mkGalaxy d c ∅ ∅ ∅.

(** Reading a [Data] map at a key that may be absent gives the nil slice. *)
Definition contextsAt (data : Data) (env : string) : list Context :=
  default [] (data !! env).

Definition setOriginal (g : Galaxy) (data : Data) : Galaxy :=
  mkGalaxy (dotGalaxy g) (cfg g) data (Modified g) (envOriginalNs g).

Definition setPlanned (g : Galaxy) (ns : gmap string (gmap string string))
           (data : Data) : Galaxy :=
  mkGalaxy (dotGalaxy g) (cfg g) (original g) data ns.

(** The error (or nil) an applier's method returns, given everything that
    happened before the call. *)
Variable applierResult : list Event → Call → result unit.

(** The order in which the Go runtime ranges over a map: every entry of
    the map, once. *)
Variable mapRange : gmap string string → list (string * string).
Hypothesis mapRange_permutation : ∀ m, mapRange m ≡ₚ map_to_list m.

Record World : Type := mkWorld {
  galaxy : Galaxy;
  events : list Event;
}.

(** *** The monad of the receiver's methods *)

(** A computation takes the world to an outcome and the world as it is
    when the method returns or, for [Exited], at the point where the process
    exits: what follows an error or an exit is not run. *)
Definition M (A : Type) : Type := World → outcome A * World.

Definition ret {A} (a : A) : M A := fun w => (Returned (Ok a), w).

Definition fail {A} (e : error) : M A := fun w => (Returned (Err e), w).

Definition exit {A} (status : nat) : M A := fun w => (Exited status, w).

Definition bind {A B} (m : M A) (k : A → M B) : M B :=
  fun w =>
    match m w with
    | (Returned (Ok a), w') => k a w'
    | (Returned (Err e), w') => (Returned (Err e), w')
    | (Exited status, w') => (Exited status, w')
    end.

Definition lift {A} (r : result A) : M A := fun w => (Returned r, w).

Definition getGalaxy : M Galaxy := fun w => (Returned (Ok (galaxy w)), w).

Definition modifyGalaxy (f : Galaxy → Galaxy) : M unit :=
  fun w => (Returned (Ok tt), mkWorld (f (galaxy w)) (events w)).

Definition emit (ev : Event) : M unit :=
  fun w => (Returned (Ok tt), mkWorld (galaxy w) (events w ++ [ev])).

Definition invoke (c : Call) : M unit :=
  fun w => (Returned (applierResult (events w) c),
            mkWorld (galaxy w) (events w ++ [Invoked c])).

Notation "'let*' x ':=' m 'in' k" := (bind m (fun x => k))
  (at level 10, x pattern, m at level 100, k at level 200).
Notation "m ';;' k" := (bind m (fun _ => k))
  (at level 100, k at level 200, right associativity).

(** [logger.Fatalf]: the entry is written, then logrus calls [os.Exit(1)]. *)
Definition Fatalf (e : error) : M unit :=
  emit (LoggedFatal e);; exit 1.

(** *** [DotGalaxy.GetNamespaceDir] *)

Definition GetNamespaceDir (d : DotGalaxy) (name : string) : result string :=
  let nss := Spec_Namespaces (DotGalaxy_Spec d) in
  if negb (stringSliceContains (Names nss) name) then
    Err (NamespaceDoesNotExist name)
  else if negb (isDir (BaseDir nss)) then
    Err (BaseDirNotDirectory (BaseDir nss))
  else Ok (pathJoin (BaseDir nss) name).

(** *** [Galaxy.Loop] *)

Definition actOnContext : Type := string → Context → M unit.

(** The inner loop, over the namespaces.  On an error of [InspectDir] the
    code calls [logger.Fatalf] and then has [return err]: the process exits
    in the first, so the second is not reached. *)
Fixpoint inspectNamespaces (exts : list string) (nss : list string)
         (ctx : Context) : M Context :=
  match nss with
  | [] => ret ctx
  | ns :: rest =>
      let* g := getGalaxy in
      let* baseDir := lift (GetNamespaceDir (dotGalaxy g) ns) in
      emit (InspectedDir ns baseDir exts);;
      match InspectDir ctx ns baseDir exts with
      | Err e => Fatalf e;; fail e
      | Ok ctx' => inspectNamespaces exts rest ctx'
      end
  end.

(** One iteration of the outer loop: a new context, every namespace
    inspected into it, then the callback. *)
Definition loopBody (fn : actOnContext) (exts : list string) (env : string)
  : M unit :=
  let* g := getGalaxy in
  let* ctx := inspectNamespaces exts (ListNamespaces (dotGalaxy g)) NewContext in
  fn env ctx.

Fixpoint loopEnvironments (fn : actOnContext) (exts : list string)
         (envs : list string) : M unit :=
  match envs with
  | [] => ret tt
  | env :: rest => loopBody fn exts env;; loopEnvironments fn exts rest
  end.

Definition Loop (fn : actOnContext) : M unit :=
  let* g := getGalaxy in
  let exts := Extensions (Spec_Namespaces (DotGalaxy_Spec (dotGalaxy g))) in
  loopEnvironments fn exts (ListEnvironments (dotGalaxy g)).

(** *** [Galaxy.Inspect] *)

Definition inspectContext : actOnContext :=
  fun env ctx =>
    modifyGalaxy (fun g =>
      setOriginal g (<[env := contextsAt (original g) env ++ [ctx]]> (original g))).

Definition Inspect : M unit :=
  let* g := getGalaxy in
  let baseDir := BaseDir (Spec_Namespaces (DotGalaxy_Spec (dotGalaxy g))) in
  if negb (isDir baseDir) then fail (BaseDirNotFound baseDir)
  else Loop inspectContext.

(** *** [Galaxy.Plan] *)

Definition planContext : actOnContext :=
  fun envName ctx =>
    let* g := getGalaxy in
    if (0 <? length (GetEnvironments (cfg g)))
       && negb (stringSliceContains (GetEnvironments (cfg g)) envName)
    then ret tt
    else
      let* env := lift (GetEnvironment (dotGalaxy g) envName) in
      let* planned := lift (ContextForEnvironment env (GetNamespaces (cfg g)) ctx) in
      modifyGalaxy (fun g =>
        setPlanned g (<[envName := planned.2]> (envOriginalNs g))
                     (<[envName := contextsAt (Modified g) envName ++ [planned.1]]>
                        (Modified g))).

Definition Plan : M unit := Loop planContext.

(** *** [Galaxy.probeSingleEnv] and [Galaxy.Apply] *)

Definition probeSingleEnv (g : Galaxy) : result string :=
  if negb (length (GetEnvironments (cfg g)) =? 1) then
    Err SingleEnvironmentRequired
  else
    let envName := nth 0 (GetEnvironments (cfg g)) "" in
    match Modified g !! envName with
    | None => Err (NotOnPlannedData envName)
    | Some _ =>
        match envOriginalNs g !! envName with
        | None => Err (NotOnOriginalNamespaces envName)
        | Some _ => Ok envName
        end
    end.

(** The body of the [range] over [g.envOriginalNs[envName]]. *)
Definition applyNamespace (skipSecrets dryRun : bool) (ns originalNs : string)
  : M unit :=
  (if negb skipSecrets then
     invoke (mkCall VaultHandler Bootstrap [AString ns; ABool dryRun]);;
     invoke (mkCall VaultHandler ApplyChanges [])
   else ret tt);;
  invoke (mkCall Landscaper Bootstrap [AString ns; AString originalNs; ABool dryRun]);;
  invoke (mkCall Landscaper ApplyChanges []).

Fixpoint applyNamespaces (skipSecrets dryRun : bool)
         (entries : list (string * string)) : M unit :=
  match entries with
  | [] => ret tt
  | (ns, originalNs) :: rest =>
      applyNamespace skipSecrets dryRun ns originalNs;;
      applyNamespaces skipSecrets dryRun rest
  end.

(** [NewVaultHandler] and [NewLandscaper] build the two handlers from the
    configuration, the environment and [g.Modified[envName]]; they return no
    error, and the handlers are then only used through [Bootstrap] and
    [Apply]. *)
Definition Apply : M unit :=
  let* g := getGalaxy in
  let* envName := lift (probeSingleEnv g) in
  let* e := lift (GetEnvironment (dotGalaxy g) envName) in
  applyNamespaces (SkipSecrets (cfg g)) (DryRun (cfg g))
                  (mapRange (default ∅ (envOriginalNs g !! envName))).

(** *** Descriptions of the runs, used to state their properties *)

(** The inspection of the namespaces, as a function of the manifest. *)

(** How [inspectNamespaces] ends and the events it adds: neither depends
    on the maps of the receiver.  A failing directory lookup is returned; a
    failing [InspectDir] is logged at the Fatal level and the process
    exits. *)
Fixpoint inspected (d : DotGalaxy) (exts nss : list string) (ctx : Context)
  : outcome Context * list Event :=
  match nss with
  | [] => (Returned (Ok ctx), [])
  | ns :: rest =>
      match GetNamespaceDir d ns with
      | Err e => (Returned (Err e), [])
      | Ok baseDir =>
          match InspectDir ctx ns baseDir exts with
          | Err e => (Exited 1, [InspectedDir ns baseDir exts; LoggedFatal e])
          | Ok ctx' =>
              let r := inspected d exts rest ctx' in
              (r.1, InspectedDir ns baseDir exts :: r.2)
          end
      end
  end.

(** What the calls of [InspectDir] on the directories of the namespaces
    give, each on the context the one before it returned. *)
Fixpoint inspectedDirs (baseDir : string) (exts nss : list string) (ctx : Context)
  : result Context :=
  match nss with
  | [] => Ok ctx
  | ns :: rest =>
      match InspectDir ctx ns (pathJoin baseDir ns) exts with
      | Err e => Err e
      | Ok ctx' => inspectedDirs baseDir exts rest ctx'
      end
  end.

(** A callback called for every environment on one context, without any
    inspection: what a pass comes to when the manifest has no namespace. *)
Fixpoint callEach (fn : actOnContext) (ctx : Context) (envs : list string) : M unit :=
  match envs with
  | [] => ret tt
  | env :: rest => fn env ctx;; callEach fn ctx rest
  end.

(** *** The two callbacks, as steps on the receiver *)

Definition recordOriginal (g : Galaxy) (env : string) (ctx : Context) : Galaxy :=
  setOriginal g (<[env := contextsAt (original g) env ++ [ctx]]> (original g)).

Definition recordPlanned (g : Galaxy) (u : string * (Context * gmap string string))
  : Galaxy :=
  setPlanned g (<[u.1 := u.2.2]> (envOriginalNs g))
               (<[u.1 := contextsAt (Modified g) u.1 ++ [u.2.1]]> (Modified g)).

(** Whether [Plan] skips an environment. *)
Definition skipped (c : Config) (envName : string) : bool :=
  (0 <? length (GetEnvironments c))
  && negb (stringSliceContains (GetEnvironments c) envName).

(** What [Plan]'s callback computes for an environment from the inspected
    context: nothing when skipped, else the planned context and mapping. *)
Definition plannedEntry (d : DotGalaxy) (c : Config) (envName : string) (ctx : Context)
  : result (option (Context * gmap string string)) :=
  if skipped c envName then Ok None
  else
    match GetEnvironment d envName with
    | Err e => Err e
    | Ok env =>
        match ContextForEnvironment env (GetNamespaces c) ctx with
        | Err e => Err e
        | Ok p => Ok (Some p)
        end
    end.

(** *** A pass, as the list of entries it records *)

(** The outcome of one iteration of [Plan]: an error, an exit, nothing
    (skipped), or the entry to record.  It is a function of the manifest and
    of the configuration only. *)
Definition planOf (d : DotGalaxy) (c : Config) (exts : list string) (env : string)
  : outcome (option (Context * gmap string string)) :=
  match (inspected d exts (ListNamespaces d) NewContext).1 with
  | Exited status => Exited status
  | Returned (Err e) => Returned (Err e)
  | Returned (Ok ctx) => Returned (plannedEntry d c env ctx)
  end.

(** The outcome of a whole pass of [Plan] over [envs], and the entries it
    records, in order, up to the first error or exit. *)
Fixpoint plans (d : DotGalaxy) (c : Config) (exts envs : list string)
  : outcome unit * list (string * (Context * gmap string string)) :=
  match envs with
  | [] => (Returned (Ok tt), [])
  | env :: rest =>
      match planOf d c exts env with
      | Exited status => (Exited status, [])
      | Returned (Err e) => (Returned (Err e), [])
      | Returned (Ok None) => plans d c exts rest
      | Returned (Ok (Some p)) =>
          let r := plans d c exts rest in (r.1, (env, p) :: r.2)
      end
  end.

(** The same for [Inspect]. *)
Fixpoint inspections (d : DotGalaxy) (exts envs : list string)
  : outcome unit * list (string * Context) :=
  match envs with
  | [] => (Returned (Ok tt), [])
  | env :: rest =>
      match (inspected d exts (ListNamespaces d) NewContext).1 with
      | Exited status => (Exited status, [])
      | Returned (Err e) => (Returned (Err e), [])
      | Returned (Ok ctx) =>
          let r := inspections d exts rest in (r.1, (env, ctx) :: r.2)
      end
  end.

Definition recordAllPlanned (g : Galaxy)
           (us : list (string * (Context * gmap string string))) : Galaxy :=
  fold_left recordPlanned us g.

Definition recordAllOriginal (g : Galaxy) (us : list (string * Context)) : Galaxy :=
  fold_left (fun g u => recordOriginal g u.1 u.2) us g.

Definition extensions (g : Galaxy) : list string :=
  Extensions (Spec_Namespaces (DotGalaxy_Spec (dotGalaxy g))).

(** Both maps are written at the same key in the same step. *)
Definition paired (g : Galaxy) : Prop :=
  ∀ env, is_Some (Modified g !! env) ↔ is_Some (envOriginalNs g !! env).

(** The mapping recorded for a key is the one of its last entry. *)
Definition lastMapping (env : string) (acc : option (gmap string string))
           (u : string * (Context * gmap string string)) : option (gmap string string) :=
  if decide (u.1 = env) then Some u.2.2 else acc.

(** *** [Apply]: the calls it makes *)

(** The calls of one iteration of the [range], and of the whole loop when
    no call fails. *)
Definition namespaceCalls (skipSecrets dryRun : bool) (entry : string * string)
  : list Call :=
  (if skipSecrets then []
   else [mkCall VaultHandler Bootstrap [AString entry.1; ABool dryRun];
         mkCall VaultHandler ApplyChanges []])
  ++ [mkCall Landscaper Bootstrap [AString entry.1; AString entry.2; ABool dryRun];
      mkCall Landscaper ApplyChanges []].

Definition schedule (skipSecrets dryRun : bool) (entries : list (string * string))
  : list Call :=
  flat_map (namespaceCalls skipSecrets dryRun) entries.

Fixpoint invokeAll (calls : list Call) : M unit :=
  match calls with
  | [] => ret tt
  | c :: rest => invoke c;; invokeAll rest
  end.

(** *** The schedule of calls *)

Definition timesCalled (c : Call) (calls : list Call) : nat :=
  length (filter (fun x => x = c) calls).

(** *** Sequences of calls on one receiver *)

Inductive Operation : Type := CallInspect | CallPlan | CallApply.

Definition perform (op : Operation) : M unit :=
  match op with
  | CallInspect => Inspect
  | CallPlan => Plan
  | CallApply => Apply
  end.

(** The state after a sequence of calls, whatever each of them returned;
    a call in which the process exits is the last one. *)
Fixpoint performAll (ops : list Operation) (w : World) : World :=
  match ops with
  | [] => w
  | op :: rest =>
      match perform op w with
      | (Returned _, w') => performAll rest w'
      | (Exited _, w') => w'
      end
  end.

(** The receiver made by [NewGalaxy], after a sequence of calls. *)
Definition performs (ops : list Operation) (d : DotGalaxy) (c : Config) : World :=
  performAll ops (mkWorld (NewGalaxy d c) []).

(** The planned data holds entries only for declared environments that the
    configuration does not skip. *)
Definition plannedDeclared (g : Galaxy) : Prop :=
  ∀ env, is_Some (Modified g !! env) →
         env ∈ ListEnvironments (dotGalaxy g) ∧ skipped (cfg g) env = false.

(** *** Facts: the inspection of the namespaces *)

Lemma inspectNamespaces_inspected (exts nss : list string) (ctx : Context) (w : World) :
  inspectNamespaces exts nss ctx w =
  ((inspected (dotGalaxy (galaxy w)) exts nss ctx).1,
   mkWorld (galaxy w) (events w ++ (inspected (dotGalaxy (galaxy w)) exts nss ctx).2)).
Proof.
  revert ctx w. induction nss as [|ns rest IH]; intros ctx [g evs]; simpl.
  - unfold ret. simpl. by rewrite app_nil_r.
  - unfold bind, getGalaxy, lift, emit. simpl.
    destruct (GetNamespaceDir (dotGalaxy g) ns) as [baseDir|e]; simpl.
    + destruct (InspectDir ctx ns baseDir exts) as [ctx'|e]; simpl.
      * rewrite IH. simpl. by rewrite <- app_assoc.
      * unfold Fatalf, bind, emit, exit. simpl. by rewrite <- app_assoc.
    + by rewrite app_nil_r.
Qed.

Lemma GetNamespaceDir_declared (d : DotGalaxy) (ns : string) :
  isDir (BaseDir (Spec_Namespaces (DotGalaxy_Spec d))) = true →
  ns ∈ ListNamespaces d →
  GetNamespaceDir d ns = Ok (pathJoin (BaseDir (Spec_Namespaces (DotGalaxy_Spec d))) ns).
Proof.
  intros Hdir Hin. unfold GetNamespaceDir.
  apply stringSliceContains_true in Hin. unfold ListNamespaces in Hin.
  by rewrite Hin, Hdir.
Qed.

Lemma inspected_declared (d : DotGalaxy) (exts nss : list string) (ctx : Context) :
  let baseDir := BaseDir (Spec_Namespaces (DotGalaxy_Spec d)) in
  isDir baseDir = true →
  nss ⊆ ListNamespaces d →
  (inspected d exts nss ctx).1 =
    match inspectedDirs baseDir exts nss ctx with
    | Ok ctx' => Returned (Ok ctx')
    | Err _ => Exited 1
    end ∧
  (isOk (inspectedDirs baseDir exts nss ctx) = true →
   (inspected d exts nss ctx).2 =
   map (fun ns => InspectedDir ns (pathJoin baseDir ns) exts) nss).
Proof.
  intros baseDir Hdir. revert ctx.
  induction nss as [|ns rest IH]; intros ctx Hsub; simpl; [done|].
  rewrite GetNamespaceDir_declared; [|done|apply Hsub; by left].
  fold baseDir. destruct (InspectDir ctx ns (pathJoin baseDir ns) exts) as [ctx'|e]; simpl.
  - destruct (IH ctx') as [IH1 IH2]; [intros x Hx; apply Hsub; by right|].
    split; [done|]. intros Hok. by rewrite IH2.
  - done.
Qed.

(** *** The outer loop stops at the first failing iteration *)





(** *** Facts: the callback of [Plan] *)

Lemma planContext_planned (envName : string) (ctx : Context) (w : World) :
  planContext envName ctx w =
  match plannedEntry (dotGalaxy (galaxy w)) (cfg (galaxy w)) envName ctx with
  | Err e => (Returned (Err e), w)
  | Ok None => (Returned (Ok tt), w)
  | Ok (Some p) =>
      (Returned (Ok tt), mkWorld (recordPlanned (galaxy w) (envName, p)) (events w))
  end.
Proof.
  unfold planContext, plannedEntry, skipped, bind, getGalaxy, lift, ret, modifyGalaxy.
  destruct w as [g evs]; simpl.
  destruct ((0 <? length (GetEnvironments (cfg g)))
            && negb (stringSliceContains (GetEnvironments (cfg g)) envName)); [done|].
  destruct (GetEnvironment (dotGalaxy g) envName) as [env|e]; [|done].
  by destruct (ContextForEnvironment env (GetNamespaces (cfg g)) ctx) as [p|e].
Qed.

Lemma skipped_false (c : Config) (envName : string) :
  skipped c envName = false ↔
  GetEnvironments c = [] ∨ envName ∈ GetEnvironments c.
Proof.
  unfold skipped. rewrite andb_false_iff, negb_false_iff, stringSliceContains_true.
  destruct (GetEnvironments c) as [|x l]; simpl.
  - split; [by left | by left].
  - split; (intros [?|?]; [done | by right]).
Qed.

Lemma skipped_true (c : Config) (envName : string) :
  skipped c envName = true ↔
  GetEnvironments c ≠ [] ∧ envName ∉ GetEnvironments c.
Proof.
  unfold skipped. rewrite andb_true_iff, negb_true_iff, stringSliceContains_false.
  destruct (GetEnvironments c) as [|x l]; simpl.
  - split; intros [? ?]; done.
  - split; intros [? ?]; done.
Qed.

(** *** Facts: a pass and the entries it records *)

Lemma recordAllPlanned_frame (us : list (string * (Context * gmap string string)))
      (g : Galaxy) :
  dotGalaxy (recordAllPlanned g us) = dotGalaxy g ∧
  cfg (recordAllPlanned g us) = cfg g ∧
  original (recordAllPlanned g us) = original g.
Proof.
  unfold recordAllPlanned. revert g.
  induction us as [|u us IH]; intros g; simpl; [done|].
  destruct (IH (recordPlanned g u)) as (-> & -> & ->). done.
Qed.

Lemma recordAllOriginal_frame (us : list (string * Context)) (g : Galaxy) :
  dotGalaxy (recordAllOriginal g us) = dotGalaxy g ∧
  cfg (recordAllOriginal g us) = cfg g ∧
  Modified (recordAllOriginal g us) = Modified g ∧
  envOriginalNs (recordAllOriginal g us) = envOriginalNs g.
Proof.
  unfold recordAllOriginal. revert g.
  induction us as [|u us IH]; intros g; simpl; [done|].
  destruct (IH (recordOriginal g u.1 u.2)) as (-> & -> & -> & ->). done.
Qed.

Lemma loopBody_planContext (exts : list string) (env : string) (w : World) :
  let d := dotGalaxy (galaxy w) in
  let evs := events w ++ (inspected d exts (ListNamespaces d) NewContext).2 in
  loopBody planContext exts env w =
  match planOf d (cfg (galaxy w)) exts env with
  | Exited status => (Exited status, mkWorld (galaxy w) evs)
  | Returned (Err e) => (Returned (Err e), mkWorld (galaxy w) evs)
  | Returned (Ok None) => (Returned (Ok tt), mkWorld (galaxy w) evs)
  | Returned (Ok (Some p)) =>
      (Returned (Ok tt), mkWorld (recordPlanned (galaxy w) (env, p)) evs)
  end.
Proof.
  intros d evs. unfold loopBody, bind, getGalaxy. simpl.
  rewrite inspectNamespaces_inspected. unfold planOf. fold d.
  destruct ((inspected d exts (ListNamespaces d) NewContext).1) as [[ctx|e]|status];
    [|done..].
  rewrite planContext_planned. simpl. fold d.
  by destruct (plannedEntry d (cfg (galaxy w)) env ctx) as [[p|]|e].
Qed.

Lemma loopBody_inspectContext (exts : list string) (env : string) (w : World) :
  let d := dotGalaxy (galaxy w) in
  let evs := events w ++ (inspected d exts (ListNamespaces d) NewContext).2 in
  loopBody inspectContext exts env w =
  match (inspected d exts (ListNamespaces d) NewContext).1 with
  | Exited status => (Exited status, mkWorld (galaxy w) evs)
  | Returned (Err e) => (Returned (Err e), mkWorld (galaxy w) evs)
  | Returned (Ok ctx) =>
      (Returned (Ok tt), mkWorld (recordOriginal (galaxy w) env ctx) evs)
  end.
Proof.
  intros d evs. unfold loopBody, bind, getGalaxy. simpl.
  rewrite inspectNamespaces_inspected. fold d.
  by destruct ((inspected d exts (ListNamespaces d) NewContext).1) as [[ctx|e]|status].
Qed.

Lemma loopEnvironments_plans (exts envs : list string) (w : World) :
  let d := dotGalaxy (galaxy w) in
  let c := cfg (galaxy w) in
  ∃ evs,
    loopEnvironments planContext exts envs w =
    ((plans d c exts envs).1,
     mkWorld (recordAllPlanned (galaxy w) (plans d c exts envs).2) (events w ++ evs)).
Proof.
  revert w. induction envs as [|env rest IH]; intros [g evs0]; simpl.
  - exists []. unfold ret. simpl. by rewrite app_nil_r.
  - unfold bind. rewrite loopBody_planContext. simpl.
    destruct (planOf (dotGalaxy g) (cfg g) exts env) as [[[p|]|e]|status]; simpl.
    + edestruct IH as [evs Hrest]. rewrite Hrest. simpl.
      eexists. by rewrite <- app_assoc.
    + edestruct IH as [evs Hrest]. rewrite Hrest. simpl.
      eexists. by rewrite <- app_assoc.
    + by eexists.
    + by eexists.
Qed.

Lemma loopEnvironments_inspections (exts envs : list string) (w : World) :
  let d := dotGalaxy (galaxy w) in
  ∃ evs,
    loopEnvironments inspectContext exts envs w =
    ((inspections d exts envs).1,
     mkWorld (recordAllOriginal (galaxy w) (inspections d exts envs).2)
             (events w ++ evs)).
Proof.
  revert w. induction envs as [|env rest IH]; intros [g evs0]; simpl.
  - exists []. unfold ret. simpl. by rewrite app_nil_r.
  - unfold bind. rewrite loopBody_inspectContext. simpl.
    destruct ((inspected (dotGalaxy g) exts (ListNamespaces (dotGalaxy g)) NewContext).1)
      as [[ctx|e]|status]; simpl.
    + edestruct IH as [evs Hrest]. rewrite Hrest. simpl.
      eexists. by rewrite <- app_assoc.
    + by eexists.
    + by eexists.
Qed.

Lemma Plan_plans (w : World) :
  let d := dotGalaxy (galaxy w) in
  let c := cfg (galaxy w) in
  let r := plans d c (extensions (galaxy w)) (ListEnvironments d) in
  (Plan w).1 = r.1 ∧ galaxy (Plan w).2 = recordAllPlanned (galaxy w) r.2.
Proof.
  cbv zeta. unfold Plan, Loop, bind, getGalaxy. simpl.
  destruct (loopEnvironments_plans (extensions (galaxy w))
              (ListEnvironments (dotGalaxy (galaxy w))) w) as [evs Hrun].
  cbv zeta in Hrun. unfold extensions in *. by rewrite Hrun.
Qed.

(** *** What recording planned entries does to the two maps *)

Lemma contextsAt_recordPlanned (g : Galaxy) (u : string * (Context * gmap string string))
      (env : string) :
  contextsAt (Modified (recordPlanned g u)) env =
  contextsAt (Modified g) env ++ (if decide (u.1 = env) then [u.2.1] else []).
Proof.
  unfold contextsAt, recordPlanned. simpl. rewrite lookup_insert.
  case_decide; subst; simpl; [done | by rewrite app_nil_r].
Qed.

Lemma contextsAt_recordAllPlanned (us : list (string * (Context * gmap string string)))
      (g : Galaxy) (env : string) :
  contextsAt (Modified (recordAllPlanned g us)) env =
  contextsAt (Modified g) env ++ map (fun u => u.2.1) (filter (fun u => u.1 = env) us).
Proof.
  unfold recordAllPlanned. revert g.
  induction us as [|u us IH]; intros g; simpl.
  - by rewrite app_nil_r.
  - rewrite IH, contextsAt_recordPlanned, filter_cons.
    case_decide; simpl; [by rewrite <- app_assoc | by rewrite app_nil_r].
Qed.

Lemma recordAllPlanned_lookup (us : list (string * (Context * gmap string string)))
      (g : Galaxy) (env : string) :
  (env ∉ us.*1 →
   Modified (recordAllPlanned g us) !! env = Modified g !! env ∧
   envOriginalNs (recordAllPlanned g us) !! env = envOriginalNs g !! env) ∧
  (env ∈ us.*1 ∨ is_Some (Modified g !! env) →
   is_Some (Modified (recordAllPlanned g us) !! env)) ∧
  (env ∈ us.*1 ∨ is_Some (envOriginalNs g !! env) →
   is_Some (envOriginalNs (recordAllPlanned g us) !! env)).
Proof.
  unfold recordAllPlanned. revert g.
  induction us as [|u us IH]; intros g; simpl.
  - split_and!; [done| |]; (intros [Hin|?]; [by apply elem_of_nil in Hin | done]).
  - destruct (IH (recordPlanned g u)) as (IH1 & IH2 & IH3). split_and!.
    + intros Hnot. apply not_elem_of_cons in Hnot as [Hne Hnot].
      destruct (IH1 Hnot) as [-> ->]. unfold recordPlanned. simpl.
      by rewrite !lookup_insert_ne.
    + intros Hin. apply IH2.
      destruct (decide (env = u.1)) as [->|Hne].
      * right. unfold recordPlanned. simpl. rewrite lookup_insert_eq. by eexists.
      * destruct Hin as [Hin|Hsome].
        -- apply elem_of_cons in Hin as [?|?]; [done | by left].
        -- right. unfold recordPlanned. simpl. by rewrite lookup_insert_ne.
    + intros Hin. apply IH3.
      destruct (decide (env = u.1)) as [->|Hne].
      * right. unfold recordPlanned. simpl. rewrite lookup_insert_eq. by eexists.
      * destruct Hin as [Hin|Hsome].
        -- apply elem_of_cons in Hin as [?|?]; [done | by left].
        -- right. unfold recordPlanned. simpl. by rewrite lookup_insert_ne.
Qed.

Lemma recordPlanned_paired (g : Galaxy) (u : string * (Context * gmap string string)) :
  paired g → paired (recordPlanned g u).
Proof.
  intros Hg env. unfold recordPlanned. simpl. rewrite !lookup_insert.
  case_decide; [|apply Hg]. split; intros _; by eexists.
Qed.

Lemma recordAllPlanned_paired (us : list (string * (Context * gmap string string)))
      (g : Galaxy) :
  paired g → paired (recordAllPlanned g us).
Proof.
  unfold recordAllPlanned. revert g.
  induction us as [|u us IH]; intros g Hg; simpl; [done|].
  by apply IH, recordPlanned_paired.
Qed.

Lemma envOriginalNs_recordAllPlanned (us : list (string * (Context * gmap string string)))
      (g : Galaxy) (env : string) :
  envOriginalNs (recordAllPlanned g us) !! env =
  fold_left (lastMapping env) us (envOriginalNs g !! env).
Proof.
  unfold recordAllPlanned. revert g.
  induction us as [|u us IH]; intros g; simpl; [done|].
  rewrite IH. f_equal. unfold recordPlanned, lastMapping. simpl.
  by rewrite lookup_insert.
Qed.

Lemma lastMapping_absorbs (us : list (string * (Context * gmap string string)))
      (env : string) (a : option (gmap string string)) :
  fold_left (lastMapping env) us a = a ∨
  ∀ b, fold_left (lastMapping env) us b = fold_left (lastMapping env) us a.
Proof.
  revert a. induction us as [|u us IH]; intros a; simpl; [by left|].
  destruct (decide (u.1 = env)) as [Heq|Hne].
  - right. intros b. unfold lastMapping at 2 4.
    by rewrite !decide_True.
  - replace (lastMapping env a u) with a by (unfold lastMapping; by rewrite decide_False).
    destruct (IH a) as [Hsame|Hany]; [by left|].
    right. intros b.
    replace (lastMapping env b u) with b by (unfold lastMapping; by rewrite decide_False).
    apply Hany.
Qed.

Lemma envOriginalNs_recordAllPlanned_twice
      (us : list (string * (Context * gmap string string))) (g : Galaxy) :
  envOriginalNs (recordAllPlanned (recordAllPlanned g us) us) =
  envOriginalNs (recordAllPlanned g us).
Proof.
  apply map_eq. intros env. rewrite !envOriginalNs_recordAllPlanned.
  destruct (lastMapping_absorbs us env (envOriginalNs g !! env)) as [Hsame|Hany].
  - by rewrite !Hsame.
  - apply Hany.
Qed.

(** *** What a pass of [Plan] records *)

Lemma planOf_Some (d : DotGalaxy) (c : Config) (exts : list string) (env : string)
      (p : Context * gmap string string) :
  planOf d c exts env = Returned (Ok (Some p)) ↔
  skipped c env = false ∧
  ∃ ctx e,
    (inspected d exts (ListNamespaces d) NewContext).1 = Returned (Ok ctx) ∧
    GetEnvironment d env = Ok e ∧
    ContextForEnvironment e (GetNamespaces c) ctx = Ok p.
Proof.
  unfold planOf, plannedEntry.
  destruct ((inspected d exts (ListNamespaces d) NewContext).1) as [[ctx|e0]|status].
  - destruct (skipped c env).
    + split; [done | by intros [? _]].
    + destruct (GetEnvironment d env) as [e|e0].
      * destruct (ContextForEnvironment e (GetNamespaces c) ctx) as [p'|e0] eqn:Hctx.
        -- split.
           ++ intros [= ->]. split; [done|]. by exists ctx, e.
           ++ intros (_ & ctx' & e' & [= <-] & [= <-] & Hp). congruence.
        -- split; [done|]. intros (_ & ctx' & e' & [= <-] & [= <-] & Hp). congruence.
      * split; [done|]. by intros (_ & ctx' & e' & _ & ? & _).
  - split; [done|]. by intros (_ & ctx' & e' & ? & _).
  - split; [done|]. by intros (_ & ctx' & e' & ? & _).
Qed.

(** A skipped environment is inspected and nothing else: its iteration ends
    as the inspection does. *)
Lemma planOf_skipped (d : DotGalaxy) (c : Config) (exts : list string) (env : string) :
  skipped c env = true →
  planOf d c exts env =
  match (inspected d exts (ListNamespaces d) NewContext).1 with
  | Exited status => Exited status
  | Returned (Err e) => Returned (Err e)
  | Returned (Ok _) => Returned (Ok None)
  end.
Proof. intros Hskip. unfold planOf, plannedEntry. by rewrite Hskip. Qed.

Lemma plans_app (d : DotGalaxy) (c : Config) (exts before after : list string) :
  plans d c exts (before ++ after) =
  match (plans d c exts before).1 with
  | Returned (Ok _) =>
      ((plans d c exts after).1, (plans d c exts before).2 ++ (plans d c exts after).2)
  | o => (o, (plans d c exts before).2)
  end.
Proof.
  induction before as [|env before IH]; simpl.
  - by destruct (plans d c exts after).
  - destruct (planOf d c exts env) as [[[p|]|e]|status]; simpl; [|done..].
    rewrite IH. by destruct ((plans d c exts before).1) as [[[]|e]|status].
Qed.

Lemma plans_entry (d : DotGalaxy) (c : Config) (exts envs : list string)
      (u : string * (Context * gmap string string)) :
  u ∈ (plans d c exts envs).2 →
  u.1 ∈ envs ∧ planOf d c exts u.1 = Returned (Ok (Some u.2)).
Proof.
  induction envs as [|env rest IH]; simpl.
  - intros Hin. by apply elem_of_nil in Hin.
  - destruct (planOf d c exts env) as [[[p|]|e]|status] eqn:Hplan; simpl.
    + intros Hin. apply elem_of_cons in Hin as [->|Hin]; [split; [by left | done]|].
      destruct (IH Hin). split; [by right | done].
    + intros Hin. destruct (IH Hin). split; [by right | done].
    + intros Hin. by apply elem_of_nil in Hin.
    + intros Hin. by apply elem_of_nil in Hin.
Qed.

Lemma plans_entries (d : DotGalaxy) (c : Config) (exts envs : list string)
      (u : string * (Context * gmap string string)) :
  u ∈ (plans d c exts envs).2 → u.1 ∈ envs ∧ skipped c u.1 = false.
Proof.
  intros Hin. apply plans_entry in Hin as [Hdecl Hplan]. split; [done|].
  by apply planOf_Some in Hplan as [? _].
Qed.

Lemma plans_complete (d : DotGalaxy) (c : Config) (exts envs : list string) (env : string) :
  (plans d c exts envs).1 = Returned (Ok tt) →
  env ∈ envs → skipped c env = false →
  env ∈ (plans d c exts envs).2.*1.
Proof.
  induction envs as [|env0 rest IH]; simpl.
  - intros _ Hin. by apply elem_of_nil in Hin.
  - intros Hok Hin Hskip.
    destruct (planOf d c exts env0) as [[[p|]|e]|status] eqn:Hplan; simpl in *;
      [| |done..].
    + apply elem_of_cons in Hin as [->|Hin]; [by left|]. right. by apply IH.
    + apply elem_of_cons in Hin as [->|Hin]; [|by apply IH].
      unfold planOf in Hplan.
      destruct ((inspected d exts (ListNamespaces d) NewContext).1) as [[ctx|e]|status];
        [|done..].
      unfold plannedEntry in Hplan. rewrite Hskip in Hplan.
      destruct (GetEnvironment d env0) as [e'|e]; [|done].
      by destruct (ContextForEnvironment e' (GetNamespaces c) ctx).
Qed.

(** A pass of [Plan] ends otherwise than by returning nil exactly at the
    first environment whose iteration does. *)
Lemma plans_Err (d : DotGalaxy) (c : Config) (exts envs : list string) (e : error) :
  (plans d c exts envs).1 = Returned (Err e) ↔
  ∃ before env after,
    envs = before ++ env :: after ∧
    (plans d c exts before).1 = Returned (Ok tt) ∧
    planOf d c exts env = Returned (Err e).
Proof.
  split.
  - induction envs as [|env0 rest IH]; simpl; [done|].
    destruct (planOf d c exts env0) as [[[p|]|e0]|status] eqn:Hplan; simpl.
    + intros Hrest. destruct (IH Hrest) as (before & env & after & -> & Hok & Herr).
      exists (env0 :: before), env, after. simpl. rewrite Hplan. by simpl.
    + intros Hrest. destruct (IH Hrest) as (before & env & after & -> & Hok & Herr).
      exists (env0 :: before), env, after. simpl. by rewrite Hplan.
    + intros [= ->]. by exists [], env0, rest.
    + done.
  - intros (before & env & after & -> & Hok & Herr). rewrite plans_app, Hok. simpl.
    by rewrite Herr.
Qed.

Lemma plans_Exited (d : DotGalaxy) (c : Config) (exts envs : list string) (status : nat) :
  (plans d c exts envs).1 = Exited status ↔
  ∃ before env after,
    envs = before ++ env :: after ∧
    (plans d c exts before).1 = Returned (Ok tt) ∧
    planOf d c exts env = Exited status.
Proof.
  split.
  - induction envs as [|env0 rest IH]; simpl; [done|].
    destruct (planOf d c exts env0) as [[[p|]|e0]|status0] eqn:Hplan; simpl.
    + intros Hrest. destruct (IH Hrest) as (before & env & after & -> & Hok & Herr).
      exists (env0 :: before), env, after. simpl. rewrite Hplan. by simpl.
    + intros Hrest. destruct (IH Hrest) as (before & env & after & -> & Hok & Herr).
      exists (env0 :: before), env, after. simpl. by rewrite Hplan.
    + done.
    + intros [= ->]. by exists [], env0, rest.
  - intros (before & env & after & -> & Hok & Herr). rewrite plans_app, Hok. simpl.
    by rewrite Herr.
Qed.


Lemma inspected_app (d : DotGalaxy) (exts before after : list string) (ctx : Context) :
  inspected d exts (before ++ after) ctx =
  match (inspected d exts before ctx).1 with
  | Returned (Ok ctx1) =>
      ((inspected d exts after ctx1).1,
       (inspected d exts before ctx).2 ++ (inspected d exts after ctx1).2)
  | o => (o, (inspected d exts before ctx).2)
  end.
Proof.
  revert ctx. induction before as [|ns before IH]; intros ctx; simpl.
  - by destruct (inspected d exts after ctx).
  - destruct (GetNamespaceDir d ns) as [dir|e]; simpl; [|done].
    destruct (InspectDir ctx ns dir exts) as [ctx'|e]; simpl; [|done].
    rewrite IH. by destruct ((inspected d exts before ctx').1) as [[ctx1|e]|status].
Qed.

(** The inspection returns an error only from a directory lookup. *)
Lemma inspected_Err (d : DotGalaxy) (exts nss : list string) (ctx : Context) (e : error) :
  (inspected d exts nss ctx).1 = Returned (Err e) ↔
  ∃ before ns after ctx1,
    nss = before ++ ns :: after ∧
    (inspected d exts before ctx).1 = Returned (Ok ctx1) ∧
    GetNamespaceDir d ns = Err e.
Proof.
  split.
  - revert ctx. induction nss as [|ns0 rest IH]; intros ctx; simpl; [done|].
    destruct (GetNamespaceDir d ns0) as [dir|e0] eqn:Hdir; simpl.
    + destruct (InspectDir ctx ns0 dir exts) as [ctx'|e0] eqn:Hins; simpl; [|done].
      intros Hrest.
      destruct (IH ctx' Hrest) as (before & ns & after & ctx1 & -> & Hok & Hfail).
      exists (ns0 :: before), ns, after, ctx1. simpl. rewrite Hdir, Hins. by simpl.
    + intros [= ->]. by exists [], ns0, rest, ctx.
  - intros (before & ns & after & ctx1 & -> & Hok & Hfail).
    rewrite inspected_app, Hok. simpl. by rewrite Hfail.
Qed.

(** The process exits in the inspection only at a failure of [InspectDir],
    with status 1, after the entry was logged. *)
Lemma inspected_Exited (d : DotGalaxy) (exts nss : list string) (ctx : Context)
      (status : nat) :
  (inspected d exts nss ctx).1 = Exited status ↔
  status = 1 ∧
  ∃ before ns after ctx1 dir e,
    nss = before ++ ns :: after ∧
    (inspected d exts before ctx).1 = Returned (Ok ctx1) ∧
    GetNamespaceDir d ns = Ok dir ∧
    InspectDir ctx1 ns dir exts = Err e ∧
    (inspected d exts nss ctx).2 =
      (inspected d exts before ctx).2 ++ [InspectedDir ns dir exts; LoggedFatal e].
Proof.
  split.
  - revert ctx. induction nss as [|ns0 rest IH]; intros ctx; simpl; [done|].
    destruct (GetNamespaceDir d ns0) as [dir|e0] eqn:Hdir; simpl; [|done].
    destruct (InspectDir ctx ns0 dir exts) as [ctx'|e0] eqn:Hins; simpl.
    + intros Hrest.
      destruct (IH ctx' Hrest)
        as (-> & before & ns & after & ctx1 & dir1 & e & -> & Hok & Hdir1 & Hfail & Hevs).
      split; [done|].
      exists (ns0 :: before), ns, after, ctx1, dir1, e. simpl. rewrite Hdir, Hins. simpl.
      split_and!; [done..|]. by rewrite Hevs.
    + intros [= <-]. split; [done|]. by exists [], ns0, rest, ctx, dir, e0.
  - intros (-> & before & ns & after & ctx1 & dir & e & -> & Hok & Hdir & Hfail & _).
    rewrite inspected_app, Hok. simpl. by rewrite Hdir, Hfail.
Qed.

(** *** What a pass of [Inspect] records *)

Lemma Inspect_unfold (w : World) :
  let baseDir := BaseDir (Spec_Namespaces (DotGalaxy_Spec (dotGalaxy (galaxy w)))) in
  Inspect w =
  if isDir baseDir then
    loopEnvironments inspectContext (extensions (galaxy w))
                     (ListEnvironments (dotGalaxy (galaxy w))) w
  else (Returned (Err (BaseDirNotFound baseDir)), w).
Proof.
  cbv zeta. unfold Inspect, Loop, bind, getGalaxy, fail, extensions. simpl.
  by destruct (isDir _).
Qed.

Lemma Inspect_frame (w : World) :
  dotGalaxy (galaxy (Inspect w).2) = dotGalaxy (galaxy w) ∧
  cfg (galaxy (Inspect w).2) = cfg (galaxy w) ∧
  Modified (galaxy (Inspect w).2) = Modified (galaxy w) ∧
  envOriginalNs (galaxy (Inspect w).2) = envOriginalNs (galaxy w).
Proof.
  rewrite Inspect_unfold. cbv zeta. destruct (isDir _); [|done].
  destruct (loopEnvironments_inspections (extensions (galaxy w))
              (ListEnvironments (dotGalaxy (galaxy w))) w) as [evs ->].
  simpl. apply recordAllOriginal_frame.
Qed.

Lemma contextsAt_recordOriginal (g : Galaxy) (key : string) (ctx : Context)
      (env : string) :
  contextsAt (original (recordOriginal g key ctx)) env =
  contextsAt (original g) env ++ (if decide (key = env) then [ctx] else []).
Proof.
  unfold contextsAt, recordOriginal. simpl. rewrite lookup_insert.
  case_decide; subst; simpl; [done | by rewrite app_nil_r].
Qed.

Lemma contextsAt_recordAllOriginal (us : list (string * Context)) (g : Galaxy)
      (env : string) :
  contextsAt (original (recordAllOriginal g us)) env =
  contextsAt (original g) env ++ map snd (filter (fun u => u.1 = env) us).
Proof.
  unfold recordAllOriginal. revert g.
  induction us as [|u us IH]; intros g; simpl.
  - by rewrite app_nil_r.
  - rewrite IH, contextsAt_recordOriginal, filter_cons.
    case_decide; simpl; [by rewrite <- app_assoc | by rewrite app_nil_r].
Qed.

Lemma loopEnvironments_inspect_Ok (d : DotGalaxy) (exts envs : list string)
      (ctx : Context) (w : World) :
  let baseDir := BaseDir (Spec_Namespaces (DotGalaxy_Spec d)) in
  dotGalaxy (galaxy w) = d →
  isDir baseDir = true →
  inspectedDirs baseDir exts (ListNamespaces d) NewContext = Ok ctx →
  loopEnvironments inspectContext exts envs w =
  (Returned (Ok tt),
   mkWorld (recordAllOriginal (galaxy w) (map (fun env => (env, ctx)) envs))
           (events w ++
            flat_map (fun _ => map (fun ns => InspectedDir ns (pathJoin baseDir ns) exts)
                                   (ListNamespaces d)) envs)).
Proof.
  intros baseDir Hd Hdir Hctx. revert w Hd.
  induction envs as [|env rest IH]; intros [g evs] Hd; simpl in *.
  - unfold ret. by rewrite app_nil_r.
  - unfold bind. rewrite loopBody_inspectContext. simpl. subst d.
    destruct (inspected_declared (dotGalaxy g) exts (ListNamespaces (dotGalaxy g))
                NewContext Hdir) as [Hres Hevs]; [done|].
    fold baseDir in Hres, Hevs. rewrite Hres, Hctx. rewrite Hevs by by rewrite Hctx.
    rewrite IH by done. simpl. by rewrite <- app_assoc.
Qed.

Lemma loopEnvironments_inspect_Exited (d : DotGalaxy) (exts envs : list string)
      (e : error) (w : World) :
  let baseDir := BaseDir (Spec_Namespaces (DotGalaxy_Spec d)) in
  dotGalaxy (galaxy w) = d →
  isDir baseDir = true →
  inspectedDirs baseDir exts (ListNamespaces d) NewContext = Err e →
  envs ≠ [] →
  (loopEnvironments inspectContext exts envs w).1 = Exited 1.
Proof.
  intros baseDir Hd Hdir Hctx Hne. destruct envs as [|env rest]; [done|]. simpl.
  unfold bind. rewrite loopBody_inspectContext. simpl. subst d.
  destruct (inspected_declared (dotGalaxy (galaxy w)) exts
              (ListNamespaces (dotGalaxy (galaxy w))) NewContext Hdir) as [Hres _]; [done|].
  fold baseDir in Hres. by rewrite Hres, Hctx.
Qed.

Lemma flat_map_const_map {A B C} (f : A → B) (l : list A) (x : list C) :
  flat_map (fun _ => x) (map f l) = flat_map (fun _ => x) l.
Proof. induction l as [|a l IH]; simpl; [done | by rewrite IH]. Qed.

(** C4, as the code has it.  When the namespaces base directory does not
    exist, [Inspect] returns the error "base directory not found at: <path>"
    and leaves the receiver and the events as they were: no namespace has
    been inspected and nothing has been added to the original data.  When it
    exists and [Inspect] returns nil, every namespace of the manifest has
    been inspected, in order, once for every environment of the manifest,
    all of them into one context per environment: that single context (not
    one context per namespace) has been appended to the original data under
    the environment's name, once per environment of that name; nothing else
    has changed.  With the base directory in place and every [InspectDir]
    succeeding, [Inspect] does return nil. *)
Theorem Inspect_base_directory :
  ∀ (w : World),
    let g := galaxy w in
    let d := dotGalaxy g in
    let envs := Spec_Environments (DotGalaxy_Spec d) in
    let nss := Names (Spec_Namespaces (DotGalaxy_Spec d)) in
    let baseDir := BaseDir (Spec_Namespaces (DotGalaxy_Spec d)) in
    let exts := Extensions (Spec_Namespaces (DotGalaxy_Spec d)) in
    (isDir baseDir = false →
     Inspect w = (Returned (Err (BaseDirNotFound baseDir)), w) ∧
     kindOf (BaseDirNotFound baseDir) = NotFoundError ∧
     Error (BaseDirNotFound baseDir) = "base directory not found at: " +:+ baseDir) ∧
    (isDir baseDir = true →
     ∀ w', Inspect w = (Returned (Ok tt), w') →
       ∃ ctx,
         (envs ≠ [] → inspectedDirs baseDir exts nss NewContext = Ok ctx) ∧
         galaxy w' = recordAllOriginal g (map (fun env => (Name env, ctx)) envs) ∧
         (∀ name,
             contextsAt (original (galaxy w')) name =
             contextsAt (original g) name ++
             replicate (length (filter (fun env => Name env = name) envs)) ctx) ∧
         (∀ env, env ∈ envs →
                 ∃ stored,
                   original (galaxy w') !! Name env = Some (stored ++ [ctx])) ∧
         Modified (galaxy w') = Modified g ∧
         envOriginalNs (galaxy w') = envOriginalNs g ∧
         events w' =
           events w ++
           flat_map (fun _ => map (fun ns => InspectedDir ns (pathJoin baseDir ns) exts)
                                  nss) envs) ∧
    (isDir baseDir = true →
     ∀ ctx, inspectedDirs baseDir exts nss NewContext = Ok ctx →
            (Inspect w).1 = Returned (Ok tt)).
Proof.
  intros w g d envs nss baseDir exts.
  assert (ListEnvironments d = map Name envs) as Hnames by apply ListEnvironments_map.
  split_and!.
  - intros Hdir. rewrite Inspect_unfold. cbv zeta. fold g d baseDir. by rewrite Hdir.
  - intros Hdir w' Hrun. rewrite Inspect_unfold in Hrun. cbv zeta in Hrun.
    fold g d baseDir in Hrun. unfold extensions in Hrun. fold g d exts in Hrun.
    rewrite Hdir, Hnames in Hrun.
    assert (∃ ctx, envs ≠ [] → inspectedDirs baseDir exts nss NewContext = Ok ctx)
      as [ctx Hctx].
    { destruct (inspectedDirs baseDir exts nss NewContext) as [ctx|e] eqn:Hins;
        [by exists ctx|].
      exists NewContext. intros Hne.
      assert (map Name envs ≠ []) as Hne' by by destruct envs.
      pose proof (loopEnvironments_inspect_Exited d exts (map Name envs) e w
                    eq_refl Hdir Hins Hne') as Hexit.
      rewrite Hrun in Hexit. done. }
    exists ctx. split; [done|].
    assert (w' = mkWorld
              (recordAllOriginal g (map (fun env => (env, ctx)) (map Name envs)))
              (events w ++
               flat_map (fun _ => map (fun ns => InspectedDir ns (pathJoin baseDir ns) exts)
                                      nss) (map Name envs))) as ->.
    { destruct envs as [|env rest] eqn:Henvs.
      - simpl in Hrun. unfold ret in Hrun. inversion Hrun; subst w'. destruct w as [g0 evs0].
        simpl. by rewrite app_nil_r.
      - assert (inspectedDirs baseDir exts nss NewContext = Ok ctx)
          as Hok by by apply Hctx.
        rewrite (loopEnvironments_inspect_Ok d exts _ ctx w eq_refl Hdir Hok)
          in Hrun.
        by inversion Hrun. }
    simpl. rewrite map_map, flat_map_const_map. simpl.
    assert (∀ name,
               contextsAt
                 (original (recordAllOriginal g (map (fun env => (Name env, ctx)) envs)))
                 name =
               contextsAt (original g) name ++
               replicate (length (filter (fun env => Name env = name) envs)) ctx)
      as Hstored.
    { intros name. rewrite contextsAt_recordAllOriginal. f_equal.
      clear. induction envs as [|x envs IH]; simpl; [done|].
      rewrite !filter_cons. simpl. case_decide; simpl; by rewrite IH. }
    split_and!; [done|done| |apply recordAllOriginal_frame..|done].
    intros env Hin.
    assert (env ∈ filter (fun x => Name x = Name env) envs) as Hocc
        by by apply list_elem_of_filter.
    pose proof (Hstored (Name env)) as Hat.
    destruct (filter (fun x => Name x = Name env) envs) as [|x occ];
      [by apply elem_of_nil in Hocc|].
    unfold contextsAt in Hat at 1.
    destruct (original (recordAllOriginal g (map (fun env => (Name env, ctx)) envs))
                !! Name env) as [cs|] eqn:Hlook.
    + simpl in Hat. subst cs.
      exists (contextsAt (original g) (Name env) ++ replicate (length occ) ctx).
      f_equal. rewrite <- app_assoc. f_equal. clear.
      induction (length occ) as [|n IH]; simpl; [done | by rewrite <- IH].
    + simpl in Hat. by destruct (contextsAt (original g) (Name env)).
  - intros Hdir ctx Hctx. rewrite Inspect_unfold. cbv zeta.
    fold g d baseDir. unfold extensions. fold g d exts. rewrite Hdir.
    by rewrite (loopEnvironments_inspect_Ok d exts _ ctx w eq_refl Hdir Hctx).
Qed.

Lemma plans_all_skipped (d : DotGalaxy) (c : Config) (exts envs : list string) :
  (∀ env, env ∈ envs → skipped c env = true) →
  plans d c exts envs =
  (match envs with
   | [] => Returned (Ok tt)
   | _ =>
       match (inspected d exts (ListNamespaces d) NewContext).1 with
       | Exited status => Exited status
       | Returned (Err e) => Returned (Err e)
       | Returned (Ok _) => Returned (Ok tt)
       end
   end, []).
Proof.
  induction envs as [|env rest IH]; intros Hall; simpl; [done|].
  rewrite planOf_skipped by (apply Hall; by left).
  destruct ((inspected d exts (ListNamespaces d) NewContext).1) as [[ctx|e]|status] eqn:Hins;
    [|done..].
  rewrite IH by (intros env' Hin; apply Hall; by right).
  by destruct rest.
Qed.


(** C6, as the code has it.  A second pass of [Plan] returns what the first
    returned and leaves [envOriginalNs] (and the original data) equal to what
    the first pass left; it does not leave the planned data equal: for every
    environment the contexts the first pass appended to [Modified] are
    appended a second time, after the ones already stored, which are kept as
    they are.  When the first pass returned nil, that list of appended
    contexts is not empty for a declared environment that is not skipped. *)
Theorem Plan_twice_appends_again :
  ∀ (w : World),
    let w1 := (Plan w).2 in
    let w2 := (Plan w1).2 in
    (Plan w1).1 = (Plan w).1 ∧
    envOriginalNs (galaxy w2) = envOriginalNs (galaxy w1) ∧
    original (galaxy w2) = original (galaxy w) ∧
    ∀ env, ∃ added,
      contextsAt (Modified (galaxy w1)) env =
        contextsAt (Modified (galaxy w)) env ++ added ∧
      contextsAt (Modified (galaxy w2)) env =
        contextsAt (Modified (galaxy w1)) env ++ added ∧
      ((Plan w).1 = Returned (Ok tt) →
       env ∈ ListEnvironments (dotGalaxy (galaxy w)) →
       skipped (cfg (galaxy w)) env = false →
       added ≠ []).
Proof.
  intros w w1 w2.
  destruct (Plan_plans w) as [Hres1 Hg1]. cbv zeta in Hres1, Hg1.
  destruct (Plan_plans w1) as [Hres2 Hg2]. cbv zeta in Hres2, Hg2.
  fold w1 in Hg1. fold w2 in Hg2.
  set (g := galaxy w) in *.
  set (us := (plans (dotGalaxy g) (cfg g) (extensions g)
                    (ListEnvironments (dotGalaxy g))).2) in *.
  destruct (recordAllPlanned_frame us g) as (Hd & Hc & Ho).
  rewrite <- Hg1 in Hd, Hc, Ho.
  unfold extensions in Hres2, Hg2. rewrite Hd, Hc in Hres2, Hg2.
  fold (extensions g) in Hres2, Hg2. fold us in Hg2.
  split_and!.
  - by rewrite Hres1, Hres2.
  - rewrite Hg2, Hg1. apply envOriginalNs_recordAllPlanned_twice.
  - rewrite Hg2. destruct (recordAllPlanned_frame us (galaxy w1)) as (_ & _ & ->). done.
  - intros env. exists (map (fun u => u.2.1) (filter (fun u => u.1 = env) us)).
    split_and!.
    + rewrite Hg1. apply contextsAt_recordAllPlanned.
    + rewrite Hg2. apply contextsAt_recordAllPlanned.
    + intros Hok Hdecl Hskip.
      assert (env ∈ us.*1) as Hin
          by (apply plans_complete; [by rewrite <- Hres1 | done | done]).
      apply list_elem_of_fmap in Hin as (u & Hkey & Hu).
      assert (u ∈ filter (fun u => u.1 = env) us) as Hfil
          by by apply list_elem_of_filter.
      destruct (filter (fun u => u.1 = env) us); [by apply elem_of_nil in Hfil|].
      done.
Qed.

(** *** Facts: the calls of [Apply] *)

Lemma invokeAll_app (before after : list Call) (w : World) :
  invokeAll (before ++ after) w = (invokeAll before;; invokeAll after) w.
Proof.
  revert w. induction before as [|c before IH]; intros w; simpl; [done|].
  unfold bind. destruct (invoke c w) as [[[[]|e]|status] w0]; [|done..].
  rewrite IH. done.
Qed.

Lemma applyNamespace_invokeAll (skipSecrets dryRun : bool) (ns originalNs : string)
      (w : World) :
  applyNamespace skipSecrets dryRun ns originalNs w =
  invokeAll (namespaceCalls skipSecrets dryRun (ns, originalNs)) w.
Proof.
  unfold applyNamespace, namespaceCalls. destruct skipSecrets; simpl.
  - unfold bind, ret, invoke. simpl.
    destruct (applierResult _ _) as [[]|e]; [|done].
    by destruct (applierResult _ _) as [[]|e].
  - unfold bind, ret, invoke. simpl.
    destruct (applierResult _ _) as [[]|e]; [|done].
    destruct (applierResult _ _) as [[]|e]; [|done].
    destruct (applierResult _ _) as [[]|e]; [|done].
    by destruct (applierResult _ _) as [[]|e].
Qed.

Lemma applyNamespaces_invokeAll (skipSecrets dryRun : bool)
      (entries : list (string * string)) (w : World) :
  applyNamespaces skipSecrets dryRun entries w =
  invokeAll (schedule skipSecrets dryRun entries) w.
Proof.
  revert w. induction entries as [|[ns originalNs] rest IH]; intros w; simpl; [done|].
  rewrite invokeAll_app. unfold bind. rewrite applyNamespace_invokeAll.
  destruct (invokeAll _ w) as [[[[]|e]|status] w0]; [apply IH | done..].
Qed.

(** A sequence of calls runs up to the first one that returns an error,
    which is the error returned. *)
Lemma invokeAll_run (calls : list Call) (w : World) :
  ∃ made,
    (invokeAll calls w).2 = mkWorld (galaxy w) (events w ++ map Invoked made) ∧
    made `prefix_of` calls ∧
    ((invokeAll calls w).1 = Returned (Ok tt) → made = calls) ∧
    (∀ e, (invokeAll calls w).1 = Returned (Err e) →
          ∃ before c, made = before ++ [c] ∧
                      applierResult (events w ++ map Invoked before) c = Err e).
Proof.
  revert w. induction calls as [|c rest IH]; intros [g evs]; simpl.
  - exists []. unfold ret. simpl. rewrite app_nil_r. by split_and!.
  - unfold bind, invoke. simpl.
    destruct (applierResult evs c) as [[]|e0] eqn:Hres.
    + destruct (IH (mkWorld g (evs ++ [Invoked c]))) as (made & Hw & Hpre & Hok & Herr).
      exists (c :: made). simpl in *. split_and!.
      * rewrite Hw. by rewrite <- app_assoc.
      * by apply prefix_cons.
      * intros Hall. by rewrite Hok.
      * intros e He. destruct (Herr e He) as (before & c' & -> & Hc').
        exists (c :: before), c'. split; [done|]. simpl.
        by rewrite <- app_assoc in Hc'.
    + exists [c]. simpl. split_and!; [done | | done |].
      * apply prefix_cons, prefix_nil.
      * intros e [= ->]. exists [], c. simpl. by rewrite app_nil_r.
Qed.

Lemma Apply_unfold (w : World) :
  let g := galaxy w in
  Apply w =
  match probeSingleEnv g with
  | Err e => (Returned (Err e), w)
  | Ok envName =>
      match GetEnvironment (dotGalaxy g) envName with
      | Err e => (Returned (Err e), w)
      | Ok _ =>
          invokeAll (schedule (SkipSecrets (cfg g)) (DryRun (cfg g))
                              (mapRange (default ∅ (envOriginalNs g !! envName)))) w
      end
  end.
Proof.
  cbv zeta. unfold Apply, bind, getGalaxy, lift. simpl.
  destruct (probeSingleEnv (galaxy w)) as [envName|e]; [|done].
  destruct (GetEnvironment (dotGalaxy (galaxy w)) envName) as [env|e]; [|done].
  apply applyNamespaces_invokeAll.
Qed.

Lemma Apply_frame (w : World) : galaxy (Apply w).2 = galaxy w.
Proof.
  rewrite Apply_unfold. cbv zeta.
  destruct (probeSingleEnv (galaxy w)) as [envName|e]; [|done].
  destruct (GetEnvironment (dotGalaxy (galaxy w)) envName) as [env|e]; [|done].
  destruct (invokeAll_run
              (schedule (SkipSecrets (cfg (galaxy w))) (DryRun (cfg (galaxy w)))
                        (mapRange (default ∅ (envOriginalNs (galaxy w) !! envName)))) w)
    as (made & -> & _). done.
Qed.

Lemma probeSingleEnv_Ok (g : Galaxy) (envName : string) :
  probeSingleEnv g = Ok envName ↔
  GetEnvironments (cfg g) = [envName] ∧
  is_Some (Modified g !! envName) ∧
  is_Some (envOriginalNs g !! envName).
Proof.
  unfold probeSingleEnv.
  destruct (GetEnvironments (cfg g)) as [|x [|y l]] eqn:Hreq; simpl.
  - split; [done | by intros [? _]].
  - destruct (Modified g !! x) eqn:Hm; destruct (envOriginalNs g !! x) eqn:Ho.
    + split.
      * intros [= <-]. rewrite Hm, Ho. split_and!; [done | by eexists..].
      * intros ([= <-] & _). done.
    + split; [done|]. intros ([= <-] & _ & Hsome). rewrite Ho in Hsome.
      by destruct Hsome.
    + split; [done|]. intros ([= <-] & Hsome & _). rewrite Hm in Hsome.
      by destruct Hsome.
    + split; [done|]. intros ([= <-] & Hsome & _). rewrite Hm in Hsome.
      by destruct Hsome.
  - split; [done | by intros [? _]].
Qed.

(** C1.  [Apply] starts with [probeSingleEnv]: with a number of requested
    environments other than one it returns "a single environment must be
    informed" (a configuration error); with exactly one requested
    environment that has no entry in [Modified], or has one there but none in
    [envOriginalNs], it returns the corresponding "is not found on ..." error
    (a not-planned error); in the three cases nothing has been done: the
    receiver and the events are as before.  A run of [Apply] that added any
    event, so any call on an applier, had its three checks pass. *)
Theorem Apply_probes_single_environment :
  ∀ (w : World),
    let g := galaxy w in
    let requested := GetEnvironments (cfg g) in
    (length requested ≠ 1 →
     probeSingleEnv g = Err SingleEnvironmentRequired ∧
     Apply w = (Returned (Err SingleEnvironmentRequired), w) ∧
     kindOf SingleEnvironmentRequired = ConfigurationError) ∧
    (∀ envName,
        requested = [envName] → Modified g !! envName = None →
        probeSingleEnv g = Err (NotOnPlannedData envName) ∧
        Apply w = (Returned (Err (NotOnPlannedData envName)), w) ∧
        kindOf (NotOnPlannedData envName) = NotPlannedError) ∧
    (∀ envName,
        requested = [envName] → is_Some (Modified g !! envName) →
        envOriginalNs g !! envName = None →
        probeSingleEnv g = Err (NotOnOriginalNamespaces envName) ∧
        Apply w = (Returned (Err (NotOnOriginalNamespaces envName)), w) ∧
        kindOf (NotOnOriginalNamespaces envName) = NotPlannedError) ∧
    (∀ envName,
        requested = [envName] → is_Some (Modified g !! envName) →
        is_Some (envOriginalNs g !! envName) →
        probeSingleEnv g = Ok envName) ∧
    (events (Apply w).2 ≠ events w →
     ∃ envName,
       requested = [envName] ∧
       is_Some (Modified g !! envName) ∧
       is_Some (envOriginalNs g !! envName)).
Proof.
  intros w g requested. split_and!.
  - intros Hlen. assert (probeSingleEnv g = Err SingleEnvironmentRequired) as Hprobe.
    { unfold probeSingleEnv. fold requested.
      destruct (Nat.eqb_spec (length requested) 1); [done|]. done. }
    split_and!; [done| |done]. rewrite Apply_unfold. cbv zeta. fold g. by rewrite Hprobe.
  - intros envName Hreq Hnone.
    assert (probeSingleEnv g = Err (NotOnPlannedData envName)) as Hprobe.
    { unfold probeSingleEnv. fold requested. rewrite Hreq. simpl. by rewrite Hnone. }
    split_and!; [done| |done]. rewrite Apply_unfold. cbv zeta. fold g. by rewrite Hprobe.
  - intros envName Hreq [cs Hsome] Hnone.
    assert (probeSingleEnv g = Err (NotOnOriginalNamespaces envName)) as Hprobe.
    { unfold probeSingleEnv. fold requested. rewrite Hreq. simpl.
      by rewrite Hsome, Hnone. }
    split_and!; [done| |done]. rewrite Apply_unfold. cbv zeta. fold g. by rewrite Hprobe.
  - intros envName Hreq Hm Ho. by apply probeSingleEnv_Ok.
  - intros Hnew. rewrite Apply_unfold in Hnew. cbv zeta in Hnew. fold g in Hnew.
    destruct (probeSingleEnv g) as [envName|e] eqn:Hprobe; [|done].
    exists envName. by apply probeSingleEnv_Ok.
Qed.

(** *** Facts: the schedule of calls *)

Lemma timesCalled_app (c : Call) (before after : list Call) :
  timesCalled c (before ++ after) = timesCalled c before + timesCalled c after.
Proof. unfold timesCalled. by rewrite filter_app, length_app. Qed.

Lemma timesCalled_cons (c x : Call) (rest : list Call) :
  timesCalled c (x :: rest) =
  (if decide (x = c) then 1 else 0) + timesCalled c rest.
Proof. unfold timesCalled. rewrite filter_cons. by case_decide. Qed.

Lemma schedule_cons (skipSecrets dryRun : bool) (entry : string * string)
      (rest : list (string * string)) :
  schedule skipSecrets dryRun (entry :: rest) =
  namespaceCalls skipSecrets dryRun entry ++ schedule skipSecrets dryRun rest.
Proof. done. Qed.

Lemma schedule_app (skipSecrets dryRun : bool) (before after : list (string * string)) :
  schedule skipSecrets dryRun (before ++ after) =
  schedule skipSecrets dryRun before ++ schedule skipSecrets dryRun after.
Proof. unfold schedule. by rewrite flat_map_app. Qed.

Lemma schedule_length (skipSecrets dryRun : bool) (entries : list (string * string)) :
  length (schedule skipSecrets dryRun entries) =
  (if skipSecrets then 2 else 4) * length entries.
Proof.
  induction entries as [|entry rest IH]; [destruct skipSecrets; simpl; lia|].
  rewrite schedule_cons, length_app, IH. unfold namespaceCalls.
  destruct skipSecrets; simpl; lia.
Qed.

Lemma schedule_Landscaper_Apply (skipSecrets dryRun : bool)
      (entries : list (string * string)) :
  timesCalled (mkCall Landscaper ApplyChanges []) (schedule skipSecrets dryRun entries)
  = length entries.
Proof.
  induction entries as [|entry rest IH]; [done|].
  rewrite schedule_cons, timesCalled_app, IH. unfold namespaceCalls.
  destruct skipSecrets; simpl;
    repeat (rewrite timesCalled_cons; case_decide; try congruence);
    unfold timesCalled; simpl; lia.
Qed.

Lemma schedule_VaultHandler_Apply (skipSecrets dryRun : bool)
      (entries : list (string * string)) :
  timesCalled (mkCall VaultHandler ApplyChanges []) (schedule skipSecrets dryRun entries)
  = if skipSecrets then 0 else length entries.
Proof.
  induction entries as [|entry rest IH]; [by destruct skipSecrets|].
  rewrite schedule_cons, timesCalled_app, IH. unfold namespaceCalls.
  destruct skipSecrets; simpl;
    repeat (rewrite timesCalled_cons; case_decide; try congruence);
    unfold timesCalled; simpl; lia.
Qed.

Lemma schedule_Bootstrap_absent (skipSecrets dryRun : bool)
      (entries : list (string * string)) (a : Applier) (ns : string) (rest : list Arg) :
  ns ∉ entries.*1 →
  timesCalled (mkCall a Bootstrap (AString ns :: rest))
              (schedule skipSecrets dryRun entries) = 0.
Proof.
  induction entries as [|entry entries IH]; [done|].
  intros Hnot. apply not_elem_of_cons in Hnot as [Hne Hnot].
  rewrite schedule_cons, timesCalled_app, IH by done. unfold namespaceCalls.
  destruct skipSecrets; simpl;
    repeat (rewrite timesCalled_cons; case_decide; try congruence);
    unfold timesCalled; simpl; lia.
Qed.

Lemma schedule_Bootstrap_once (skipSecrets dryRun : bool)
      (entries : list (string * string)) (ns originalNs : string) :
  NoDup entries.*1 →
  (ns, originalNs) ∈ entries →
  timesCalled (mkCall Landscaper Bootstrap [AString ns; AString originalNs; ABool dryRun])
              (schedule skipSecrets dryRun entries) = 1 ∧
  timesCalled (mkCall VaultHandler Bootstrap [AString ns; ABool dryRun])
              (schedule skipSecrets dryRun entries) = (if skipSecrets then 0 else 1).
Proof.
  induction entries as [|[ns0 o0] entries IH].
  - intros _ Hin. by apply elem_of_nil in Hin.
  - intros Hnodup Hin. rewrite fmap_cons in Hnodup. simpl in Hnodup.
    apply NoDup_cons in Hnodup as [Hfresh Hnodup].
    rewrite schedule_cons, !timesCalled_app.
    apply elem_of_cons in Hin as [[= <- <-]|Hin].
    + rewrite !schedule_Bootstrap_absent by done. unfold namespaceCalls.
      destruct skipSecrets; simpl;
        repeat (rewrite timesCalled_cons; case_decide; try congruence);
        unfold timesCalled; simpl; done.
    + destruct (IH Hnodup Hin) as [-> ->].
      assert (ns0 ≠ ns) as Hne.
      { intros ->. apply Hfresh. apply list_elem_of_fmap. by exists (ns, originalNs). }
      unfold namespaceCalls.
      destruct skipSecrets; simpl;
        repeat (rewrite timesCalled_cons; case_decide; try congruence);
        unfold timesCalled; simpl; done.
Qed.

(** In the schedule with secrets, the release applier's [Bootstrap] for a
    namespace comes right after the secret handler's [Bootstrap] for that
    namespace and its [Apply]. *)
Lemma schedule_secrets_first (dryRun : bool) (entries : list (string * string))
      (before after : list Call) (ns originalNs : string) (dry : bool) :
  schedule false dryRun entries =
    before ++ mkCall Landscaper Bootstrap [AString ns; AString originalNs; ABool dry]
           :: after →
  ∃ before',
    before = before' ++ [mkCall VaultHandler Bootstrap [AString ns; ABool dry];
                         mkCall VaultHandler ApplyChanges []].
Proof.
  revert before. induction entries as [|[ns0 o0] entries IH]; intros before.
  - intros Heq. by destruct before.
  - rewrite schedule_cons. unfold namespaceCalls. simpl.
    destruct before as [|c1 [|c2 [|c3 [|c4 before]]]]; simpl; intros Heq;
      inversion Heq; subst.
    + by exists [].
    + destruct (IH before) as [before' ->]; [done|].
      by eexists (_ :: _ :: _ :: _ :: before').
Qed.

Lemma schedule_skip_secrets (dryRun : bool) (entries : list (string * string)) :
  Forall (fun c => receiver c = Landscaper) (schedule true dryRun entries).
Proof.
  induction entries as [|entry entries IH]; [constructor|].
  rewrite schedule_cons. unfold namespaceCalls. simpl. by repeat constructor.
Qed.

Lemma schedule_block (skipSecrets dryRun : bool) (entries : list (string * string))
      (entry : string * string) :
  entry ∈ entries →
  ∃ before after,
    schedule skipSecrets dryRun entries =
    before ++ namespaceCalls skipSecrets dryRun entry ++ after.
Proof.
  intros Hin. apply list_elem_of_split in Hin as (l1 & l2 & ->).
  rewrite schedule_app, schedule_cons. by eexists _, _.
Qed.

Lemma mapRange_elem_of (m : gmap string string) (ns originalNs : string) :
  (ns, originalNs) ∈ mapRange m ↔ m !! ns = Some originalNs.
Proof using mapRange_permutation.
  rewrite mapRange_permutation. apply elem_of_map_to_list.
Qed.

Lemma mapRange_NoDup (m : gmap string string) : NoDup (mapRange m).*1.
Proof using mapRange_permutation.
  rewrite mapRange_permutation. apply NoDup_fst_map_to_list.
Qed.

Lemma mapRange_length (m : gmap string string) : length (mapRange m) = size m.
Proof using mapRange_permutation.
  rewrite mapRange_permutation. apply length_map_to_list.
Qed.

Lemma schedule_VaultHandler_three_arguments (skipSecrets dryRun : bool)
      (entries : list (string * string)) (a1 a2 a3 : Arg) :
  timesCalled (mkCall VaultHandler Bootstrap [a1; a2; a3])
              (schedule skipSecrets dryRun entries) = 0.
Proof.
  induction entries as [|entry rest IH]; [done|].
  rewrite schedule_cons, timesCalled_app, IH. unfold namespaceCalls.
  destruct skipSecrets; simpl;
    repeat (rewrite timesCalled_cons; case_decide; try congruence);
    unfold timesCalled; simpl; lia.
Qed.

Lemma Apply_run (w : World) :
  let g := galaxy w in
  ∃ calls,
    (Apply w).2 = mkWorld g (events w ++ map Invoked calls) ∧
    (∀ envName,
        probeSingleEnv g = Ok envName →
        calls `prefix_of`
          schedule (SkipSecrets (cfg g)) (DryRun (cfg g))
                   (mapRange (default ∅ (envOriginalNs g !! envName)))) ∧
    (probeSingleEnv g = Err SingleEnvironmentRequired ∨
     (∃ e, probeSingleEnv g = Err e) → calls = []) ∧
    ((Apply w).1 = Returned (Ok tt) →
     ∃ envName,
       probeSingleEnv g = Ok envName ∧
       calls = schedule (SkipSecrets (cfg g)) (DryRun (cfg g))
                        (mapRange (default ∅ (envOriginalNs g !! envName)))).
Proof.
  intros g. rewrite Apply_unfold. cbv zeta. fold g.
  destruct (probeSingleEnv g) as [envName|e] eqn:Hprobe.
  - destruct (GetEnvironment (dotGalaxy g) envName) as [env|e].
    + destruct (invokeAll_run
                  (schedule (SkipSecrets (cfg g)) (DryRun (cfg g))
                            (mapRange (default ∅ (envOriginalNs g !! envName)))) w)
        as (made & Hw & Hpre & Hok & _).
      exists made. split_and!; [done| | |].
      * by intros ? [= <-].
      * intros [?|[? ?]]; done.
      * intros Hres. exists envName. split; [done | by apply Hok].
    + exists []. simpl. rewrite app_nil_r. split_and!; [by destruct w| |done|done].
      intros ? _. apply prefix_nil.
  - exists []. simpl. rewrite app_nil_r. split_and!; [by destruct w|done|done|done].
Qed.

(** C2.  The calls [Apply] makes on the appliers, in any run, are the
    beginning of the schedule that goes through the namespaces of the
    environment's original-namespace map as [range] visits them and, for
    each, calls the secret handler's [Bootstrap] and [Apply] (unless secrets
    are skipped) and then the release applier's [Bootstrap] and [Apply].  So
    with secrets not skipped, a [Bootstrap] of the release applier for a
    namespace has right before it the secret handler's [Bootstrap] for that
    namespace and the secret handler's [Apply]; with secrets skipped, every
    call is on the release applier.  When [Apply] returns nil, every namespace of the
    environment's original-namespace map has its calls made in a row: the
    secret handler's [Bootstrap] and [Apply] (unless skipped), then the
    release applier's [Bootstrap] and [Apply]. *)
Theorem Apply_secrets_before_releases :
  ∀ (w : World),
    let g := galaxy w in
    let skipSecrets := SkipSecrets (cfg g) in
    let dryRun := DryRun (cfg g) in
    ∃ calls,
      (Apply w).2 = mkWorld g (events w ++ map Invoked calls) ∧
      (∀ envName,
          probeSingleEnv g = Ok envName →
          calls `prefix_of`
            schedule skipSecrets dryRun
                     (mapRange (default ∅ (envOriginalNs g !! envName)))) ∧
      (skipSecrets = false →
       ∀ before after ns originalNs dry,
         calls = before
                 ++ mkCall Landscaper Bootstrap
                           [AString ns; AString originalNs; ABool dry] :: after →
         ∃ before',
           before = before' ++ [mkCall VaultHandler Bootstrap [AString ns; ABool dry];
                                mkCall VaultHandler ApplyChanges []]) ∧
      (skipSecrets = true → Forall (fun c => receiver c = Landscaper) calls) ∧
      ((Apply w).1 = Returned (Ok tt) →
       ∃ envName,
         probeSingleEnv g = Ok envName ∧
         ∀ ns originalNs,
           default ∅ (envOriginalNs g !! envName) !! ns = Some originalNs →
           ∃ before after,
             calls = before
                     ++ ((if skipSecrets then []
                          else [mkCall VaultHandler Bootstrap [AString ns; ABool dryRun];
                                mkCall VaultHandler ApplyChanges []])
                         ++ [mkCall Landscaper Bootstrap
                                    [AString ns; AString originalNs; ABool dryRun];
                             mkCall Landscaper ApplyChanges []])
                     ++ after).
Proof using mapRange_permutation.
  intros w g skipSecrets dryRun.
  destruct (Apply_run w) as (calls & Hw & Hpre & Hnone & Hok). fold g in Hw, Hpre, Hok, Hnone.
  exists calls. split_and!; [done|done| | |].
  - intros Hskip before after ns originalNs dry ->.
    destruct (probeSingleEnv g) as [envName|e] eqn:Hprobe.
    + destruct (Hpre envName eq_refl) as [rest Hsched].
      fold skipSecrets in Hsched. rewrite Hskip in Hsched.
      rewrite <- app_assoc in Hsched. simpl in Hsched.
      by apply schedule_secrets_first in Hsched.
    + assert (before ++ mkCall Landscaper Bootstrap
                [AString ns; AString originalNs; ABool dry] :: after = []) as Hnil
          by (apply Hnone; right; by eexists).
      by destruct before.
  - intros Hskip.
    destruct (probeSingleEnv g) as [envName|e] eqn:Hprobe.
    + destruct (Hpre envName eq_refl) as [rest Hsched].
      fold skipSecrets in Hsched. rewrite Hskip in Hsched.
      pose proof (schedule_skip_secrets (DryRun (cfg g))
                    (mapRange (default ∅ (envOriginalNs g !! envName)))) as Hall.
      rewrite Hsched in Hall. by apply Forall_app in Hall as [? _].
    + rewrite Hnone; [constructor | right; by eexists].
  - intros Hres. destruct (Hok Hres) as (envName & Hprobe & ->).
    exists envName. split; [done|]. intros ns originalNs Hentry.
    apply mapRange_elem_of in Hentry.
    by apply (schedule_block skipSecrets dryRun) in Hentry.
Qed.

(** C3, as the code has it.  When [Apply] returns nil, for every namespace
    of the environment's original-namespace map the release applier's
    [Bootstrap] has been called exactly once, with (namespace, original
    namespace, dryRun); the secret handler's [Bootstrap] has been called
    exactly once with (namespace, dryRun) when secrets are not skipped and
    not at all when they are, and never with three arguments; each applier's
    [Apply] has been called as many times as the map has namespaces (none for
    the secret handler when skipped); and no other call has been made. *)
Theorem Apply_calls_once_per_namespace :
  ∀ (w : World),
    let g := galaxy w in
    let skipSecrets := SkipSecrets (cfg g) in
    let dryRun := DryRun (cfg g) in
    (Apply w).1 = Returned (Ok tt) →
    ∃ envName calls,
      probeSingleEnv g = Ok envName ∧
      (Apply w).2 = mkWorld g (events w ++ map Invoked calls) ∧
      let m := default ∅ (envOriginalNs g !! envName) in
      (∀ ns originalNs,
          m !! ns = Some originalNs →
          timesCalled (mkCall Landscaper Bootstrap
                              [AString ns; AString originalNs; ABool dryRun]) calls = 1 ∧
          timesCalled (mkCall VaultHandler Bootstrap [AString ns; ABool dryRun]) calls
            = (if skipSecrets then 0 else 1) ∧
          timesCalled (mkCall VaultHandler Bootstrap
                              [AString ns; AString originalNs; ABool dryRun]) calls = 0) ∧
      timesCalled (mkCall Landscaper ApplyChanges []) calls = size m ∧
      timesCalled (mkCall VaultHandler ApplyChanges []) calls
        = (if skipSecrets then 0 else size m) ∧
      length calls = (if skipSecrets then 2 else 4) * size m.
Proof using mapRange_permutation.
  intros w g skipSecrets dryRun Hres.
  destruct (Apply_run w) as (calls & Hw & _ & _ & Hok). fold g in Hw, Hok.
  destruct (Hok Hres) as (envName & Hprobe & ->).
  exists envName. eexists. cbv zeta. split_and!; [done|done| | | |].
  - intros ns originalNs Hentry. apply mapRange_elem_of in Hentry.
    destruct (schedule_Bootstrap_once skipSecrets dryRun _ ns originalNs
                (mapRange_NoDup _) Hentry) as [H1 H2].
    split_and!; [done|done|]. apply schedule_VaultHandler_three_arguments.
  - by rewrite schedule_Landscaper_Apply, mapRange_length.
  - by rewrite schedule_VaultHandler_Apply, mapRange_length.
  - by rewrite schedule_length, mapRange_length.
Qed.

(** *** Passes never take anything back *)



(** One iteration of [Loop]: the callback is called on the context the
    inspection gives, when it gives one; otherwise the iteration ends as the
    inspection does, the callback is not called and the receiver is
    untouched. *)
Lemma loopBody_inspected (fn : actOnContext) (exts : list string) (env : string)
      (w : World) :
  let d := dotGalaxy (galaxy w) in
  let r := inspected d exts (ListNamespaces d) NewContext in
  let w1 := mkWorld (galaxy w) (events w ++ r.2) in
  loopBody fn exts env w =
  match r.1 with
  | Returned (Ok ctx) => fn env ctx w1
  | Returned (Err e) => (Returned (Err e), w1)
  | Exited status => (Exited status, w1)
  end.
Proof.
  cbv zeta. unfold loopBody, bind, getGalaxy. simpl.
  rewrite inspectNamespaces_inspected.
  by destruct ((inspected _ exts _ NewContext).1) as [[ctx|e]|status].
Qed.

Lemma Loop_unfold (fn : actOnContext) (w : World) :
  let spec := DotGalaxy_Spec (dotGalaxy (galaxy w)) in
  Loop fn w =
  loopEnvironments fn (Extensions (Spec_Namespaces spec))
                   (map Name (Spec_Environments spec)) w.
Proof.
  cbv zeta. unfold Loop, bind, getGalaxy. simpl. by rewrite ListEnvironments_map.
Qed.

(** The inspection fails in the first iteration or in none: with an
    environment to iterate on, a pass whose inspection gives no context ends
    as the inspection does, whatever the callback. *)
Lemma Loop_inspection_stops (fn : actOnContext) (w : World) (o : outcome unit) :
  let g := galaxy w in
  let spec := DotGalaxy_Spec (dotGalaxy g) in
  let r := inspected (dotGalaxy g) (Extensions (Spec_Namespaces spec))
                     (Names (Spec_Namespaces spec)) NewContext in
  Spec_Environments spec ≠ [] →
  match r.1 with
  | Returned (Ok _) => False
  | Returned (Err e) => o = Returned (Err e)
  | Exited status => o = Exited status
  end →
  Loop fn w = (o, mkWorld g (events w ++ r.2)).
Proof.
  cbv zeta. intros Hdecl Hends. rewrite Loop_unfold. cbv zeta.
  destruct (Spec_Environments (DotGalaxy_Spec (dotGalaxy (galaxy w)))) as [|env rest];
    [done|].
  simpl. unfold bind. rewrite loopBody_inspected. cbv zeta. unfold ListNamespaces.
  destruct ((inspected _ _ _ NewContext).1) as [[ctx|e]|status]; [done|by subst o..].
Qed.


(** *** Facts: sequences of calls on one receiver *)

Lemma perform_paired (op : Operation) (w : World) :
  paired (galaxy w) → paired (galaxy (perform op w).2).
Proof.
  intros Hw. destruct op; simpl.
  - destruct (Inspect_frame w) as (_ & _ & Hm & Ho).
    intros env. by rewrite Hm, Ho.
  - destruct (Plan_plans w) as [_ Hg]. cbv zeta in Hg. rewrite Hg.
    by apply recordAllPlanned_paired.
  - by rewrite Apply_frame.
Qed.

(** What every call keeps, a sequence of calls keeps. *)
Lemma performAll_keeps (P : World → Prop) :
  (∀ op w, P w → P (perform op w).2) →
  ∀ ops w, P w → P (performAll ops w).
Proof.
  intros Hstep ops. induction ops as [|op ops IH]; intros w Hw; simpl; [done|].
  pose proof (Hstep op w Hw) as Hnext.
  destruct (perform op w) as [[r|status] w']; simpl in Hnext; [by apply IH | done].
Qed.

Lemma performAll_paired (ops : list Operation) (w : World) :
  paired (galaxy w) → paired (galaxy (performAll ops w)).
Proof.
  apply (performAll_keeps (fun w => paired (galaxy w))).
  intros op w0. apply perform_paired.
Qed.

(** C10.  The callback of [Plan] either leaves both maps alone or writes
    both at the environment's name, in one step.  So after any sequence of
    calls of [Plan] (and of [Inspect] and [Apply]) on a new receiver, a name
    has an entry in [Modified] exactly when it has one in [envOriginalNs],
    and [probeSingleEnv] never answers that the environment is missing from
    the original-namespace map only. *)
Theorem Plan_writes_both_maps :
  ∀ (d : DotGalaxy) (c : Config) (ops : list Operation),
    let g := galaxy (performAll ops (mkWorld (NewGalaxy d c) [])) in
    (∀ env, is_Some (Modified g !! env) ↔ is_Some (envOriginalNs g !! env)) ∧
    (∀ envName, probeSingleEnv g ≠ Err (NotOnOriginalNamespaces envName)) ∧
    (∀ env ctx w,
        let g0 := galaxy w in
        let g1 := galaxy (planContext env ctx w).2 in
        (Modified g1 = Modified g0 ∧ envOriginalNs g1 = envOriginalNs g0) ∨
        (∃ modified originalNs,
            Modified g1 = <[env := contextsAt (Modified g0) env ++ [modified]]> (Modified g0) ∧
            envOriginalNs g1 = <[env := originalNs]> (envOriginalNs g0))).
Proof.
  intros d c ops g.
  assert (paired g) as Hpaired.
  { apply performAll_paired. intros env. simpl. by rewrite !lookup_empty. }
  split_and!.
  - apply Hpaired.
  - intros envName Hprobe. unfold probeSingleEnv in Hprobe.
    destruct (negb _); [done|].
    destruct (Modified g !! _) as [cs|] eqn:Hm; [|done].
    destruct (envOriginalNs g !! _) as [m|] eqn:Ho; [done|].
    assert (is_Some (envOriginalNs g !! nth 0 (GetEnvironments (cfg g)) ""))
      as [? Hsome] by (apply Hpaired; by eexists).
    congruence.
  - intros env ctx w g0 g1. subst g0 g1. rewrite planContext_planned.
    destruct (plannedEntry _ _ env ctx) as [[p|]|e]; simpl; [|by left..].
    right. by exists p.1, p.2.
Qed.

(** *** Further properties: the manifest *)

Lemma lookupEnvironment_elem_of (envs : list Environment) (name : string) :
  name ∈ map Name envs ↔ ∃ e, lookupEnvironment envs name = Ok e.
Proof.
  split.
  - intros Hin. destruct (lookupEnvironment envs name) as [e|err] eqn:Hlook; [by exists e|].
    apply lookupEnvironment_Err in Hlook as [_ Hall].
    apply list_elem_of_fmap in Hin as (x & -> & Hx).
    rewrite Forall_forall in Hall. by destruct (Hall x Hx).
  - intros [e He]. apply lookupEnvironment_Ok in He as (before & after & -> & <- & _).
    rewrite map_app. apply elem_of_app. right. by left.
Qed.

(** X1.  [ListEnvironments] lists the names of the environments in the
    order of the manifest, repetitions included, and [GetEnvironment] finds
    an environment exactly for the names it lists; the environment found
    bears the name asked for and is one of the manifest. *)
Theorem GetEnvironment_ListEnvironments :
  ∀ (d : DotGalaxy) (name : string),
    let envs := Spec_Environments (DotGalaxy_Spec d) in
    (name ∈ ListEnvironments d ↔ ∃ e, GetEnvironment d name = Ok e) ∧
    (∀ e, GetEnvironment d name = Ok e → Name e = name ∧ e ∈ envs) ∧
    length (ListEnvironments d) = length envs ∧
    (∀ i, ListEnvironments d !! i = Name <$> envs !! i).
Proof.
  intros d name envs. rewrite ListEnvironments_map. fold envs. split_and!.
  - apply lookupEnvironment_elem_of.
  - intros e He. apply lookupEnvironment_Ok in He as (before & after & Hsplit & Hname & _).
    split; [done|]. fold envs in Hsplit. rewrite Hsplit. apply elem_of_app. right. by left.
  - apply length_map.
  - intros i. apply list_lookup_fmap.
Qed.

(** *** Further properties: where the errors of a pass come from *)

Lemma GetNamespaceDir_declared_cases (d : DotGalaxy) (ns : string) :
  let baseDir := BaseDir (Spec_Namespaces (DotGalaxy_Spec d)) in
  ns ∈ ListNamespaces d →
  (isDir baseDir = true ∧ GetNamespaceDir d ns = Ok (pathJoin baseDir ns)) ∨
  (isDir baseDir = false ∧ GetNamespaceDir d ns = Err (BaseDirNotDirectory baseDir)).
Proof.
  intros baseDir Hin. unfold GetNamespaceDir.
  apply stringSliceContains_true in Hin. unfold ListNamespaces in Hin.
  rewrite Hin. simpl. fold baseDir. destruct (isDir baseDir); [by left | by right].
Qed.

(** How the inspection of the declared namespaces can fail: by a missing
    base directory, which is returned, or by a failing [InspectDir], at
    which the process exits. *)
Lemma inspected_sources (d : DotGalaxy) (exts : list string) :
  let baseDir := BaseDir (Spec_Namespaces (DotGalaxy_Spec d)) in
  let r := inspected d exts (ListNamespaces d) NewContext in
  (∀ e, r.1 = Returned (Err e) →
        isDir baseDir = false ∧ e = BaseDirNotDirectory baseDir) ∧
  (∀ status, r.1 = Exited status →
             status = 1 ∧ isDir baseDir = true ∧
             ∃ ctx ns e evs,
               ns ∈ ListNamespaces d ∧
               InspectDir ctx ns (pathJoin baseDir ns) exts = Err e ∧
               r.2 = evs ++ [LoggedFatal e]).
Proof.
  intros baseDir r. split.
  - intros e Hfail. apply inspected_Err in Hfail
      as (before & ns & after & ctx1 & Hsplit & _ & Hdir).
    assert (ns ∈ ListNamespaces d) as Hin.
    { rewrite Hsplit. apply elem_of_app. right. by left. }
    destruct (GetNamespaceDir_declared_cases d ns Hin) as [[_ Hok]|[Hno Herr]];
      [congruence|].
    fold baseDir in Hno. split; [done|]. rewrite Hdir in Herr. by inversion Herr.
  - intros status Hexit. apply inspected_Exited in Hexit
      as (-> & before & ns & after & ctx1 & dir & e & Hsplit & _ & Hdir & Hins & Hevs).
    assert (ns ∈ ListNamespaces d) as Hin.
    { rewrite Hsplit. apply elem_of_app. right. by left. }
    destruct (GetNamespaceDir_declared_cases d ns Hin) as [[Hyes Hok]|[_ Herr]];
      [|congruence].
    fold baseDir in Hyes, Hok. split_and!; [done..|].
    exists ctx1, ns, e, ((inspected d exts before NewContext).2 ++ [InspectedDir ns dir exts]).
    rewrite Hdir in Hok. inversion Hok; subst dir.
    split_and!; [done..|].
    fold r in Hevs. rewrite Hevs. by rewrite <- app_assoc.
Qed.

Lemma Inspect_inspections (w : World) :
  let g := galaxy w in
  let d := dotGalaxy g in
  let baseDir := BaseDir (Spec_Namespaces (DotGalaxy_Spec d)) in
  (Inspect w).1 =
    (if isDir baseDir then (inspections d (extensions g) (ListEnvironments d)).1
     else Returned (Err (BaseDirNotFound baseDir))) ∧
  galaxy (Inspect w).2 =
    (if isDir baseDir
     then recordAllOriginal g (inspections d (extensions g) (ListEnvironments d)).2
     else g).
Proof.
  cbv zeta. rewrite Inspect_unfold. cbv zeta. destruct (isDir _); [|done].
  destruct (loopEnvironments_inspections (extensions (galaxy w))
              (ListEnvironments (dotGalaxy (galaxy w))) w) as [evs Hrun].
  cbv zeta in Hrun. by rewrite Hrun.
Qed.

Lemma Inspect_Loop (w : World) :
  isDir (BaseDir (Spec_Namespaces (DotGalaxy_Spec (dotGalaxy (galaxy w))))) = true →
  Inspect w = Loop inspectContext w.
Proof. intros Hdir. unfold Inspect, bind, getGalaxy. simpl. by rewrite Hdir. Qed.

(** A pass of [Inspect] that does not return nil ends as the inspection
    did. *)
Lemma inspections_stops (d : DotGalaxy) (exts envs : list string) (o : outcome unit) :
  (inspections d exts envs).1 = o →
  o ≠ Returned (Ok tt) →
  envs ≠ [] ∧
  match (inspected d exts (ListNamespaces d) NewContext).1 with
  | Returned (Ok _) => False
  | Returned (Err e) => o = Returned (Err e)
  | Exited status => o = Exited status
  end.
Proof.
  induction envs as [|env rest IH]; simpl; [congruence|].
  intros Hrun Hstop. split; [done|].
  destruct ((inspected d exts (ListNamespaces d) NewContext).1) as [[ctx|e]|status] eqn:Hins;
    [|done..].
  simpl in Hrun. by destruct (IH Hrun Hstop) as [_ Hends].
Qed.

Lemma Loop_stops_in_inspection (w : World) (o : outcome unit) :
  let g := galaxy w in
  let spec := DotGalaxy_Spec (dotGalaxy g) in
  let r := inspected (dotGalaxy g) (Extensions (Spec_Namespaces spec))
                     (Names (Spec_Namespaces spec)) NewContext in
  (Loop inspectContext w).1 = o →
  o ≠ Returned (Ok tt) →
  Spec_Environments spec ≠ [] ∧
  match r.1 with
  | Returned (Ok _) => False
  | Returned (Err e) => o = Returned (Err e)
  | Exited status => o = Exited status
  end.
Proof.
  cbv zeta. intros Hrun Hstop. rewrite Loop_unfold in Hrun. cbv zeta in Hrun.
  destruct (loopEnvironments_inspections
              (Extensions (Spec_Namespaces (DotGalaxy_Spec (dotGalaxy (galaxy w)))))
              (map Name (Spec_Environments (DotGalaxy_Spec (dotGalaxy (galaxy w))))) w)
    as [evs Hpass].
  cbv zeta in Hpass. rewrite Hpass in Hrun. simpl in Hrun.
  destruct (inspections_stops _ _ _ _ Hrun Hstop) as [Hdecl Hends].
  split; [|exact Hends]. intros Hnil. by rewrite Hnil in Hdecl.
Qed.

(** X2.  [Plan] returns nil, or it returns an error that comes from one of
    two places: the base directory is not a directory ("baseDir is not a
    directory"), or the planner failed on an environment of the manifest
    that is not skipped; or else [InspectDir] failed on the directory of a
    namespace of the manifest, and then nothing is returned: the process
    exits with status 1, the Fatal-level entry being the last thing done.
    The lookups of the namespace and of the environment, made with names
    taken from the manifest itself, never fail. *)
Theorem Plan_error_sources :
  ∀ (w : World),
    let g := galaxy w in
    let d := dotGalaxy g in
    let c := cfg g in
    let envs := Spec_Environments (DotGalaxy_Spec d) in
    let nss := Names (Spec_Namespaces (DotGalaxy_Spec d)) in
    let exts := Extensions (Spec_Namespaces (DotGalaxy_Spec d)) in
    let baseDir := BaseDir (Spec_Namespaces (DotGalaxy_Spec d)) in
    (Plan w).1 = Returned (Ok tt) ∨
    (∃ e,
        (Plan w).1 = Returned (Err e) ∧
        ((isDir baseDir = false ∧ e = BaseDirNotDirectory baseDir) ∨
         (∃ env ctx,
             env ∈ envs ∧
             skipped c (Name env) = false ∧
             (inspected d exts nss NewContext).1 = Returned (Ok ctx) ∧
             ContextForEnvironment env (GetNamespaces c) ctx = Err e))) ∨
    ((Plan w).1 = Exited 1 ∧
     isDir baseDir = true ∧
     ∃ ctx ns e,
       ns ∈ nss ∧
       InspectDir ctx ns (pathJoin baseDir ns) exts = Err e ∧
       last (events (Plan w).2) = Some (LoggedFatal e)).
Proof.
  intros w g d c envs nss exts baseDir.
  destruct (Plan_plans w) as [Hres _]. cbv zeta in Hres.
  unfold extensions in Hres. fold g d c exts in Hres.
  destruct (inspected_sources d exts) as [Hreturned Hexited].
  cbv zeta in Hreturned, Hexited. fold baseDir in Hreturned, Hexited.
  unfold ListNamespaces in Hreturned, Hexited. fold nss in Hreturned, Hexited.
  destruct ((Plan w).1) as [[[]|e]|status] eqn:Hplan; [by left| |].
  - right. left. exists e. split; [done|].
    symmetry in Hres. apply plans_Err in Hres as (before & name & after & Hsplit & _ & Hone).
    unfold planOf, ListNamespaces in Hone. fold nss in Hone.
    destruct ((inspected d exts nss NewContext).1) as [[ctx|e0]|status] eqn:Hins; [| |done].
    + right. unfold plannedEntry in Hone.
      destruct (skipped c name) eqn:Hskip; [done|].
      assert (name ∈ ListEnvironments d) as Hdecl.
      { rewrite Hsplit. apply elem_of_app. right. by left. }
      rewrite ListEnvironments_map in Hdecl.
      apply lookupEnvironment_elem_of in Hdecl as [env Hfound].
      unfold GetEnvironment in Hone. rewrite Hfound in Hone.
      destruct (ContextForEnvironment env (GetNamespaces c) ctx) as [p|e1] eqn:Hctx;
        [done|].
      inversion Hone; subst e1.
      apply lookupEnvironment_Ok in Hfound as (l1 & l2 & Henvs & Hname & _).
      exists env, ctx. split_and!; [|by rewrite Hname|done|done].
      unfold envs. rewrite Henvs. apply elem_of_app. right. by left.
    + left. inversion Hone; subst e0. by apply Hreturned.
  - right. right.
    symmetry in Hres. apply plans_Exited in Hres as (before & name & after & Hsplit & _ & Hone).
    unfold planOf, ListNamespaces in Hone. fold nss in Hone.
    destruct ((inspected d exts nss NewContext).1) as [[ctx|e0]|status0] eqn:Hins;
      [done|done|].
    inversion Hone; subst status0.
    destruct (Hexited status eq_refl) as (-> & Hdir & ctx & ns & e & evs & Hin & Hfail & Hevs).
    split_and!; [done..|]. exists ctx, ns, e. split_and!; [done..|].
    assert (envs ≠ []) as Hdecl.
    { intros Hnil. pose proof (ListEnvironments_map d) as Hnames.
      fold envs in Hnames. rewrite Hnil, Hsplit in Hnames. by destruct before. }
    pose proof (Loop_inspection_stops planContext w (Exited 1)) as Hstop.
    cbv zeta in Hstop. fold g d exts nss in Hstop. rewrite Hins in Hstop.
    change (Loop planContext w) with (Plan w) in Hstop.
    rewrite Hstop by done. simpl. rewrite Hevs, app_assoc. apply last_snoc.
Qed.

(** X3.  [Inspect] returns nil, or it returns "base directory not found"
    with nothing done, which it does exactly when the base directory is
    missing, or else [InspectDir] failed on the directory of a namespace of
    the manifest, and then nothing is returned: the process exits with
    status 1, the Fatal-level entry being the last thing done.  The directory
    lookup that [Loop] makes for every namespace never fails inside
    [Inspect]. *)
Theorem Inspect_error_sources :
  ∀ (w : World),
    let g := galaxy w in
    let d := dotGalaxy g in
    let nss := Names (Spec_Namespaces (DotGalaxy_Spec d)) in
    let exts := Extensions (Spec_Namespaces (DotGalaxy_Spec d)) in
    let baseDir := BaseDir (Spec_Namespaces (DotGalaxy_Spec d)) in
    (isDir baseDir = true ∧ (Inspect w).1 = Returned (Ok tt)) ∨
    (isDir baseDir = false ∧
     Inspect w = (Returned (Err (BaseDirNotFound baseDir)), w)) ∨
    (isDir baseDir = true ∧
     (Inspect w).1 = Exited 1 ∧
     ∃ ctx ns e,
       ns ∈ nss ∧
       InspectDir ctx ns (pathJoin baseDir ns) exts = Err e ∧
       last (events (Inspect w).2) = Some (LoggedFatal e)).
Proof.
  intros w g d nss exts baseDir.
  destruct (isDir baseDir) eqn:Hdir.
  - rewrite (Inspect_Loop w Hdir).
    destruct (inspected_sources d exts) as [Hreturned Hexited].
    cbv zeta in Hreturned, Hexited. fold baseDir in Hreturned, Hexited.
    unfold ListNamespaces in Hreturned, Hexited. fold nss in Hreturned, Hexited.
    destruct ((Loop inspectContext w).1) as [[[]|e]|status] eqn:Hrun; [by left| |].
    + pose proof (Loop_stops_in_inspection w (Returned (Err e)) Hrun) as Hstop.
      cbv zeta in Hstop. fold g d exts nss in Hstop.
      destruct Hstop as [_ Hends]; [done|].
      destruct ((inspected d exts nss NewContext).1) as [[ctx|e0]|status] eqn:Hins;
        [done| |done].
      destruct (Hreturned e0 eq_refl) as [Hno _]. congruence.
    + right. right.
      pose proof (Loop_stops_in_inspection w (Exited status) Hrun) as Hstop.
      cbv zeta in Hstop. fold g d exts nss in Hstop.
      destruct Hstop as [Hdecl Hends]; [done|].
      destruct ((inspected d exts nss NewContext).1) as [[ctx|e0]|status0] eqn:Hins;
        [done|done|].
      inversion Hends; subst status0.
      destruct (Hexited status eq_refl)
        as (-> & _ & ctx & ns & e & evs & Hin & Hfail & Hevs).
      split_and!; [done..|]. exists ctx, ns, e. split_and!; [done..|].
      pose proof (Loop_inspection_stops inspectContext w (Exited 1)) as Hexit.
      cbv zeta in Hexit. fold g d exts nss in Hexit. rewrite Hins in Hexit.
      rewrite Hexit by done. simpl. rewrite Hevs, app_assoc. apply last_snoc.
  - right. left. split; [done|].
    rewrite Inspect_unfold. cbv zeta. fold g d baseDir. by rewrite Hdir.
Qed.

(** *** Further properties: [Plan] and the directories *)

Lemma Plan_unfold (w : World) :
  Plan w =
  loopEnvironments planContext (extensions (galaxy w))
                   (ListEnvironments (dotGalaxy (galaxy w))) w.
Proof. unfold Plan, Loop, bind, getGalaxy, extensions. done. Qed.

(** X4.  [Plan] inspects the namespaces of an environment before it decides
    whether to skip it: when the inspection of the namespaces gives no
    context and the manifest has an environment, [Plan] ends as the
    inspection does (it returns the error of the directory lookup, or the
    process exits at the failure of [InspectDir]) and records nothing,
    whatever the requested environments are - also when every environment
    would have been skipped. *)
Theorem Plan_inspects_before_skipping :
  ∀ (w : World),
    let g := galaxy w in
    let d := dotGalaxy g in
    let envs := Spec_Environments (DotGalaxy_Spec d) in
    let nss := Names (Spec_Namespaces (DotGalaxy_Spec d)) in
    let exts := Extensions (Spec_Namespaces (DotGalaxy_Spec d)) in
    let inspection := inspected d exts nss NewContext in
    envs ≠ [] →
    (∀ ctx, inspection.1 ≠ Returned (Ok ctx)) →
    (Plan w).1 ≠ Returned (Ok tt) ∧
    Plan w =
    (match inspection.1 with
     | Exited status => Exited status
     | Returned (Err e) => Returned (Err e)
     | Returned (Ok _) => Returned (Ok tt)
     end,
     mkWorld g (events w ++ inspection.2)).
Proof.
  intros w g d envs nss exts inspection Hdecl Hfail.
  assert (Plan w =
          (match inspection.1 with
           | Exited status => Exited status
           | Returned (Err e) => Returned (Err e)
           | Returned (Ok _) => Returned (Ok tt)
           end,
           mkWorld g (events w ++ inspection.2))) as Hrun.
  { pose proof (Loop_inspection_stops planContext w) as Hstop.
    cbv zeta in Hstop. fold g d exts nss in Hstop. fold inspection in Hstop.
    change (Loop planContext w) with (Plan w) in Hstop.
    apply Hstop; [done|].
    destruct (inspection.1) as [[ctx|e]|status]; [by destruct (Hfail ctx)|done..]. }
  split; [|done]. rewrite Hrun. simpl.
  destruct (inspection.1) as [[ctx|e]|status]; [by destruct (Hfail ctx)|done..].
Qed.

Lemma planContext_frame (env : string) (ctx : Context) (w : World) :
  dotGalaxy (galaxy (planContext env ctx w).2) = dotGalaxy (galaxy w) ∧
  events (planContext env ctx w).2 = events w.
Proof.
  rewrite planContext_planned.
  by destruct (plannedEntry _ _ env ctx) as [[p|]|e].
Qed.

Lemma callEach_planContext_events (ctx : Context) (envs : list string) (w : World) :
  events (callEach planContext ctx envs w).2 = events w.
Proof.
  revert w. induction envs as [|env rest IH]; intros w; simpl; [done|].
  unfold bind. destruct (planContext_frame env ctx w) as [_ Hevs].
  destruct (planContext env ctx w) as [[[[]|e]|status] w1]; simpl in *; [|done..].
  by rewrite IH.
Qed.

Lemma loopEnvironments_plan_no_namespaces (exts envs : list string) (w : World) :
  ListNamespaces (dotGalaxy (galaxy w)) = [] →
  loopEnvironments planContext exts envs w = callEach planContext NewContext envs w.
Proof.
  revert w. induction envs as [|env rest IH]; intros w Hnone; simpl; [done|].
  unfold bind. rewrite loopBody_inspected. cbv zeta. rewrite Hnone. simpl.
  rewrite app_nil_r. replace (mkWorld (galaxy w) (events w)) with w by by destruct w.
  destruct (planContext_frame env NewContext w) as [Hd _].
  destruct (planContext env NewContext w) as [[[[]|e]|status] w1]; simpl in *; [|done..].
  apply IH. by rewrite Hd.
Qed.

Lemma Plan_no_namespaces (w : World) :
  ListNamespaces (dotGalaxy (galaxy w)) = [] →
  Plan w = callEach planContext NewContext (ListEnvironments (dotGalaxy (galaxy w))) w.
Proof. intros Hnone. rewrite Plan_unfold. by apply loopEnvironments_plan_no_namespaces. Qed.

Lemma Plan_missing_base_directory (w : World) :
  let d := dotGalaxy (galaxy w) in
  let baseDir := BaseDir (Spec_Namespaces (DotGalaxy_Spec d)) in
  isDir baseDir = false →
  Spec_Environments (DotGalaxy_Spec d) ≠ [] →
  Names (Spec_Namespaces (DotGalaxy_Spec d)) ≠ [] →
  Plan w = (Returned (Err (BaseDirNotDirectory baseDir)), w).
Proof.
  intros d baseDir Hdir Hdecl Hnames.
  pose proof (Loop_inspection_stops planContext w
                (Returned (Err (BaseDirNotDirectory baseDir)))) as Hstop.
  cbv zeta in Hstop. fold d in Hstop.
  change (Loop planContext w) with (Plan w) in Hstop.
  assert (inspected d (Extensions (Spec_Namespaces (DotGalaxy_Spec d)))
                    (Names (Spec_Namespaces (DotGalaxy_Spec d))) NewContext
          = (Returned (Err (BaseDirNotDirectory baseDir)), [])) as Hins.
  { destruct (Names (Spec_Namespaces (DotGalaxy_Spec d))) as [|ns rest] eqn:Hlist; [done|].
    simpl. assert (ns ∈ ListNamespaces d) as Hin.
    { unfold ListNamespaces. rewrite Hlist. by left. }
    destruct (GetNamespaceDir_declared_cases d ns Hin) as [[Hyes _]|[_ ->]];
      [fold baseDir in Hyes; congruence | done]. }
  rewrite Hins in Hstop. simpl in Hstop. rewrite app_nil_r in Hstop.
  rewrite Hstop; [by destruct w | done | done].
Qed.

(** X6.  [Inspect] accumulates as [Plan] does: a second [Inspect] returns
    what the first returned and appends to the original data of every
    environment the contexts the first appended, once more; it leaves the
    planned data and the original-namespace map alone. *)
Theorem Inspect_twice_appends_again :
  ∀ (w : World),
    let w1 := (Inspect w).2 in
    let w2 := (Inspect w1).2 in
    (Inspect w1).1 = (Inspect w).1 ∧
    Modified (galaxy w2) = Modified (galaxy w) ∧
    envOriginalNs (galaxy w2) = envOriginalNs (galaxy w) ∧
    ∀ env, ∃ added,
      contextsAt (original (galaxy w1)) env =
        contextsAt (original (galaxy w)) env ++ added ∧
      contextsAt (original (galaxy w2)) env =
        contextsAt (original (galaxy w1)) env ++ added ∧
      ((Inspect w).1 = Returned (Ok tt) →
       env ∈ ListEnvironments (dotGalaxy (galaxy w)) →
       added ≠ []).
Proof.
  intros w w1 w2.
  destruct (Inspect_inspections w) as [Hres1 Hg1]. cbv zeta in Hres1, Hg1.
  destruct (Inspect_inspections w1) as [Hres2 Hg2]. cbv zeta in Hres2, Hg2.
  destruct (Inspect_frame w) as (Hd & Hc & Hm & Ho).
  destruct (Inspect_frame w1) as (_ & _ & Hm2 & Ho2).
  fold w1 in Hg1, Hd, Hc, Hm, Ho. fold w2 in Hg2, Hm2, Ho2.
  unfold extensions in Hres2, Hg2. rewrite Hd in Hres2, Hg2.
  fold (extensions (galaxy w)) in Hres2, Hg2.
  set (g := galaxy w) in *.
  set (baseDir := BaseDir (Spec_Namespaces (DotGalaxy_Spec (dotGalaxy g)))) in *.
  set (run := inspections (dotGalaxy g) (extensions g) (ListEnvironments (dotGalaxy g))) in *.
  split_and!.
  - by rewrite Hres1, Hres2.
  - by rewrite Hm2, Hm.
  - by rewrite Ho2, Ho.
  - intros env. destruct (isDir baseDir) eqn:Hdir.
    + exists (map snd (filter (fun u => u.1 = env) run.2)). split_and!.
      * rewrite Hg1. apply contextsAt_recordAllOriginal.
      * rewrite Hg2. apply contextsAt_recordAllOriginal.
      * intros Hok Hdecl. rewrite Hok in Hres1.
        assert ((env, default NewContext
                   (match (inspected (dotGalaxy g) (extensions g)
                             (ListNamespaces (dotGalaxy g)) NewContext).1 with
                    | Returned (Ok ctx) => Some ctx | _ => None end)) ∈ run.2) as Hin.
        { subst run. revert Hres1 Hdecl. generalize (ListEnvironments (dotGalaxy g)).
          intros envs. induction envs as [|x envs IH]; simpl; intros Hres Hdecl.
          - by apply elem_of_nil in Hdecl.
          - destruct ((inspected (dotGalaxy g) (extensions g)
                         (ListNamespaces (dotGalaxy g)) NewContext).1)
              as [[ctx|e0]|status]; simpl in *; [|done..].
            apply elem_of_cons in Hdecl as [->|Hdecl]; [by left|].
            right. by apply IH. }
        assert (is_Some (head (filter (fun u => u.1 = env) run.2))) as [u Hu].
        { destruct (filter (fun u => u.1 = env) run.2) as [|u l] eqn:Hfil; [|by eexists].
          assert ((env, default NewContext
                     (match (inspected (dotGalaxy g) (extensions g)
                               (ListNamespaces (dotGalaxy g)) NewContext).1 with
                      | Returned (Ok ctx) => Some ctx | _ => None end))
                  ∈ filter (fun u => u.1 = env) run.2) as Hbad
              by by apply list_elem_of_filter.
          rewrite Hfil in Hbad. by apply elem_of_nil in Hbad. }
        destruct (filter (fun u => u.1 = env) run.2); [done|]. done.
    + exists []. rewrite Hg1, Hg2, Hg1. rewrite !app_nil_r. split_and!; [done..|].
      intros Hok. rewrite Hok in Hres1. done.
Qed.

(** *** Further properties: [Inspect] and [Plan] do not interfere *)

Lemma Galaxy_eq (g1 g2 : Galaxy) :
  dotGalaxy g1 = dotGalaxy g2 → cfg g1 = cfg g2 → original g1 = original g2 →
  Modified g1 = Modified g2 → envOriginalNs g1 = envOriginalNs g2 → g1 = g2.
Proof. destruct g1, g2. simpl. by intros -> -> -> -> ->. Qed.

Lemma recordAllOriginal_original (us : list (string * Context)) (g g' : Galaxy) :
  original g = original g' →
  original (recordAllOriginal g us) = original (recordAllOriginal g' us).
Proof.
  unfold recordAllOriginal. revert g g'.
  induction us as [|u us IH]; intros g g' Heq; simpl; [done|].
  apply IH. unfold recordOriginal. simpl. by rewrite Heq.
Qed.

Lemma recordAllPlanned_planned (us : list (string * (Context * gmap string string)))
      (g g' : Galaxy) :
  Modified g = Modified g' → envOriginalNs g = envOriginalNs g' →
  Modified (recordAllPlanned g us) = Modified (recordAllPlanned g' us) ∧
  envOriginalNs (recordAllPlanned g us) = envOriginalNs (recordAllPlanned g' us).
Proof.
  unfold recordAllPlanned. revert g g'.
  induction us as [|u us IH]; intros g g' Hm Ho; simpl; [done|].
  apply IH; unfold recordPlanned; simpl; by rewrite ?Hm, ?Ho.
Qed.

Lemma recordAll_commute (us : list (string * Context))
      (ups : list (string * (Context * gmap string string))) (g : Galaxy) :
  recordAllPlanned (recordAllOriginal g us) ups =
  recordAllOriginal (recordAllPlanned g ups) us.
Proof.
  destruct (recordAllOriginal_frame us g) as (Hd1 & Hc1 & Hm1 & Ho1).
  destruct (recordAllPlanned_frame ups g) as (Hd2 & Hc2 & Hor2).
  destruct (recordAllPlanned_frame ups (recordAllOriginal g us)) as (Hd3 & Hc3 & Hor3).
  destruct (recordAllOriginal_frame us (recordAllPlanned g ups)) as (Hd4 & Hc4 & Hm4 & Ho4).
  destruct (recordAllPlanned_planned ups (recordAllOriginal g us) g Hm1 Ho1) as [Hm5 Ho5].
  apply Galaxy_eq.
  - by rewrite Hd3, Hd1, Hd4, Hd2.
  - by rewrite Hc3, Hc1, Hc4, Hc2.
  - rewrite Hor3. symmetry. by apply recordAllOriginal_original.
  - by rewrite Hm5, Hm4.
  - by rewrite Ho5, Ho4.
Qed.

Lemma Plan_frame (w : World) :
  dotGalaxy (galaxy (Plan w).2) = dotGalaxy (galaxy w) ∧
  cfg (galaxy (Plan w).2) = cfg (galaxy w) ∧
  original (galaxy (Plan w).2) = original (galaxy w).
Proof.
  destruct (Plan_plans w) as [_ Hg]. cbv zeta in Hg. rewrite Hg.
  apply recordAllPlanned_frame.
Qed.

(** X7.  [Inspect] and [Plan] work on different maps of the receiver and
    neither reads what the other writes: [Plan] returns the same and plans
    the same whether or not [Inspect] ran before it, [Inspect] likewise, and
    the two passes leave the same maps in either order. *)
Theorem Inspect_Plan_commute :
  ∀ (w : World),
    (Plan (Inspect w).2).1 = (Plan w).1 ∧
    (Inspect (Plan w).2).1 = (Inspect w).1 ∧
    galaxy (Plan (Inspect w).2).2 = galaxy (Inspect (Plan w).2).2 ∧
    original (galaxy (Plan w).2) = original (galaxy w) ∧
    Modified (galaxy (Inspect w).2) = Modified (galaxy w) ∧
    envOriginalNs (galaxy (Inspect w).2) = envOriginalNs (galaxy w).
Proof.
  intros w.
  destruct (Inspect_frame w) as (HdI & HcI & HmI & HoI).
  destruct (Plan_frame w) as (HdP & HcP & HorP).
  destruct (Plan_plans w) as [HresP HgP]. cbv zeta in HresP, HgP.
  destruct (Plan_plans (Inspect w).2) as [HresPI HgPI]. cbv zeta in HresPI, HgPI.
  destruct (Inspect_inspections w) as [HresI HgI]. cbv zeta in HresI, HgI.
  destruct (Inspect_inspections (Plan w).2) as [HresIP HgIP]. cbv zeta in HresIP, HgIP.
  unfold extensions in *. rewrite HdI, HcI in HresPI, HgPI. rewrite HdP in HresIP, HgIP.
  split_and!; [congruence | congruence | | done..].
  rewrite HgPI, HgIP, HgP, HgI.
  destruct (isDir _); [apply recordAll_commute | done].
Qed.

(** *** Further properties: [Apply] and the errors of the appliers *)

Lemma invokeAll_Err (calls : list Call) (w : World) (e : error) :
  (invokeAll calls w).1 = Returned (Err e) →
  ∃ before c after,
    calls = before ++ c :: after ∧
    (invokeAll calls w).2
      = mkWorld (galaxy w) (events w ++ map Invoked (before ++ [c])) ∧
    applierResult (events w ++ map Invoked before) c = Err e ∧
    ∀ i c', before !! i = Some c' →
            applierResult (events w ++ map Invoked (take i before)) c' = Ok tt.
Proof.
  revert w. induction calls as [|c0 rest IH]; intros [g evs]; simpl; [done|].
  unfold bind, invoke. simpl.
  destruct (applierResult evs c0) as [[]|e0] eqn:Hres; simpl.
  - intros Hfail.
    destruct (IH (mkWorld g (evs ++ [Invoked c0])) Hfail)
      as (before & c & after & -> & Hw & Hc & Hearlier).
    exists (c0 :: before), c, after. simpl in *. split_and!.
    + done.
    + rewrite Hw. by rewrite <- app_assoc.
    + by rewrite <- app_assoc in Hc.
    + intros [|i] c' Hi; simpl in *.
      * inversion Hi; subst c'. by rewrite app_nil_r.
      * specialize (Hearlier i c' Hi). by rewrite <- app_assoc in Hearlier.
  - intros [= ->]. exists [], c0, rest. simpl. rewrite app_nil_r.
    split_and!; [done..|]. intros i c' Hi. by rewrite lookup_nil in Hi.
Qed.

(** X8.  [Apply] only reads the receiver: it leaves every map as it was,
    whatever it returns.  An error it returns after calling an applier is
    the error of the last call it made: the calls before it all returned nil
    and no call follows it.  An error it returns without any call is the one
    of [probeSingleEnv] or of the lookup of the environment. *)
Theorem Apply_returns_the_appliers_error :
  ∀ (w : World),
    let g := galaxy w in
    galaxy (Apply w).2 = g ∧
    ∀ e,
      (Apply w).1 = Returned (Err e) →
      ((Apply w).2 = w ∧
       (probeSingleEnv g = Err e ∨
        ∃ envName, probeSingleEnv g = Ok envName ∧
                   GetEnvironment (dotGalaxy g) envName = Err e)) ∨
      (∃ before c,
          events (Apply w).2 = events w ++ map Invoked (before ++ [c]) ∧
          applierResult (events w ++ map Invoked before) c = Err e ∧
          ∀ i c', before !! i = Some c' →
                  applierResult (events w ++ map Invoked (take i before)) c' = Ok tt).
Proof.
  intros w g. split; [apply Apply_frame|].
  intros e. rewrite Apply_unfold. cbv zeta. fold g.
  destruct (probeSingleEnv g) as [envName|e0] eqn:Hprobe.
  - destruct (GetEnvironment (dotGalaxy g) envName) as [env|e0] eqn:Hfound.
    + intros Hfail. right.
      destruct (invokeAll_Err _ _ _ Hfail) as (before & c & after & _ & Hw & Hc & Hearlier).
      exists before, c. rewrite Hw. simpl. by split_and!.
    + intros [= ->]. left. split; [done|]. right. by exists envName.
  - intros [= ->]. left. split; [done|]. by left.
Qed.

(** *** Further properties: what [Apply] finds on a receiver *)

Lemma perform_frame (op : Operation) (w : World) :
  dotGalaxy (galaxy (perform op w).2) = dotGalaxy (galaxy w) ∧
  cfg (galaxy (perform op w).2) = cfg (galaxy w).
Proof.
  destruct op; simpl.
  - by destruct (Inspect_frame w) as (-> & -> & _).
  - by destruct (Plan_frame w) as (-> & -> & _).
  - by rewrite Apply_frame.
Qed.

Lemma perform_plannedDeclared (op : Operation) (w : World) :
  plannedDeclared (galaxy w) → plannedDeclared (galaxy (perform op w).2).
Proof.
  intros Hw. destruct (perform_frame op w) as [Hd Hc].
  intros env. rewrite Hd, Hc. destruct op; simpl.
  - destruct (Inspect_frame w) as (_ & _ & -> & _). apply Hw.
  - destruct (Plan_plans w) as [_ Hg]. cbv zeta in Hg. rewrite Hg.
    set (us := (plans (dotGalaxy (galaxy w)) (cfg (galaxy w)) (extensions (galaxy w))
                      (ListEnvironments (dotGalaxy (galaxy w)))).2).
    destruct (decide (env ∈ us.*1)) as [Hin|Hnot].
    + intros _. apply list_elem_of_fmap in Hin as (u & -> & Hu).
      by apply plans_entries in Hu.
    + destruct (recordAllPlanned_lookup us (galaxy w) env) as (Hsame & _).
      destruct (Hsame Hnot) as [-> _]. apply Hw.
  - rewrite Apply_frame. apply Hw.
Qed.

Lemma performAll_invariants (ops : list Operation) (w : World) :
  plannedDeclared (galaxy w) →
  dotGalaxy (galaxy (performAll ops w)) = dotGalaxy (galaxy w) ∧
  cfg (galaxy (performAll ops w)) = cfg (galaxy w) ∧
  plannedDeclared (galaxy (performAll ops w)).
Proof.
  intros Hw.
  apply (performAll_keeps
           (fun w' => dotGalaxy (galaxy w') = dotGalaxy (galaxy w) ∧
                      cfg (galaxy w') = cfg (galaxy w) ∧
                      plannedDeclared (galaxy w'))); [|done].
  intros op w0 (Hd0 & Hc0 & Hinv0). destruct (perform_frame op w0) as [Hd Hc].
  split_and!; [congruence | congruence | by apply perform_plannedDeclared].
Qed.

(** X9.  On a receiver made by [NewGalaxy] and used through [Inspect],
    [Plan] and [Apply] only, the planned data has entries for declared
    environments that the configuration requests (or for any declared one
    when it requests none), and for no other name.  So when [probeSingleEnv]
    accepts an environment, the lookup of that environment in [Apply] finds
    it: [Apply] never fails there. *)
Theorem Apply_finds_the_planned_environment :
  ∀ (d : DotGalaxy) (c : Config) (ops : list Operation),
    let g := galaxy (performs ops d c) in
    dotGalaxy g = d ∧ cfg g = c ∧
    (∀ env, is_Some (Modified g !! env) →
            env ∈ ListEnvironments d ∧
            (GetEnvironments c = [] ∨ env ∈ GetEnvironments c)) ∧
    (∀ envName, probeSingleEnv g = Ok envName →
                ∃ e, GetEnvironment d envName = Ok e ∧ Name e = envName).
Proof.
  intros d c ops g.
  destruct (performAll_invariants ops (mkWorld (NewGalaxy d c) [])) as (Hd & Hc & Hinv).
  { intros env. simpl. rewrite lookup_empty. by intros [? ?]. }
  fold (performs ops d c) in Hd, Hc, Hinv. fold g in Hd, Hc, Hinv. simpl in Hd, Hc.
  split_and!; [done..| |].
  - intros env Hsome. destruct (Hinv env Hsome) as [Hdecl Hskip].
    rewrite Hd in Hdecl. rewrite Hc in Hskip. split; [done|]. by apply skipped_false.
  - intros envName Hprobe. apply probeSingleEnv_Ok in Hprobe as (_ & Hsome & _).
    destruct (Hinv envName Hsome) as [Hdecl _]. rewrite Hd in Hdecl.
    rewrite ListEnvironments_map in Hdecl.
    apply lookupEnvironment_elem_of in Hdecl as [e He]. exists e. split; [done|].
    by apply lookupEnvironment_Ok in He as (_ & _ & _ & ? & _).
Qed.


Lemma performAll_without_Plan (ops : list Operation) (w : World) :
  CallPlan ∉ ops →
  Modified (galaxy (performAll ops w)) = Modified (galaxy w) ∧
  cfg (galaxy (performAll ops w)) = cfg (galaxy w).
Proof.
  revert w. induction ops as [|op ops IH]; intros w Hnot; simpl; [done|].
  apply not_elem_of_cons in Hnot as [Hop Hnot].
  assert (Modified (galaxy (perform op w).2) = Modified (galaxy w) ∧
          cfg (galaxy (perform op w).2) = cfg (galaxy w)) as [Hm Hc].
  { destruct op; simpl; [|done|].
    - by destruct (Inspect_frame w) as (_ & -> & -> & _).
    - by rewrite Apply_frame. }
  destruct (perform op w) as [[r|status] w']; simpl in Hm, Hc; [|done].
  destruct (IH w' Hnot) as [-> ->]. done.
Qed.

(** X10.  Until [Plan] has been called on it, a receiver made by
    [NewGalaxy] has no planned data, whatever calls of [Inspect] and [Apply]
    were made, and [Apply] fails on it without calling an applier: with "a
    single environment must be informed" unless exactly one environment is
    requested, and then with "is not found on planned data". *)
Theorem Apply_fails_before_Plan :
  ∀ (d : DotGalaxy) (c : Config) (ops : list Operation),
    CallPlan ∉ ops →
    let w := performs ops d c in
    Modified (galaxy w) = ∅ ∧
    ((length (GetEnvironments c) ≠ 1 ∧
      Apply w = (Returned (Err SingleEnvironmentRequired), w)) ∨
     (∃ envName, GetEnvironments c = [envName] ∧
                 Apply w = (Returned (Err (NotOnPlannedData envName)), w))).
Proof.
  intros d c ops Hnot w.
  destruct (performAll_without_Plan ops (mkWorld (NewGalaxy d c) []) Hnot) as [Hm Hc].
  fold (performs ops d c) in Hm, Hc. fold w in Hm, Hc. simpl in Hm, Hc.
  split; [done|]. rewrite Apply_unfold. cbv zeta. unfold probeSingleEnv.
  rewrite Hc, Hm.
  destruct (GetEnvironments c) as [|envName [|other rest]]; simpl.
  - left. split; [lia | done].
  - right. exists envName. split; [done|]. by rewrite lookup_empty.
  - left. split; [lia | done].
Qed.

(** *** Further properties: what a pass of [Plan] records *)

Lemma plans_filter (d : DotGalaxy) (c : Config) (exts envs : list string)
      (env : string) (p : Context * gmap string string) :
  (plans d c exts envs).1 = Returned (Ok tt) →
  planOf d c exts env = Returned (Ok (Some p)) →
  filter (fun u => u.1 = env) (plans d c exts envs).2
  = replicate (length (filter (fun x => x = env) envs)) (env, p).
Proof.
  intros Hok Hplan. induction envs as [|env0 rest IH]; simpl in *; [done|].
  rewrite filter_cons.
  destruct (planOf d c exts env0) as [[[p0|]|e]|status] eqn:Hplan0; simpl in *;
    [| |done..].
  - rewrite filter_cons. simpl. case_decide as Heq.
    + subst env0. rewrite Hplan in Hplan0. inversion Hplan0; subst p0.
      simpl. by rewrite IH.
    + by apply IH.
  - case_decide as Heq; [|by apply IH].
    subst env0. congruence.
Qed.

Lemma lastMapping_same (us : list (string * (Context * gmap string string)))
      (env : string) (m : gmap string string) (a : option (gmap string string)) :
  (∀ u, u ∈ us → u.1 = env → u.2.2 = m) →
  env ∈ us.*1 →
  fold_left (lastMapping env) us a = Some m.
Proof.
  revert a. induction us as [|u us IH]; intros a Hall Hin; simpl.
  - by apply elem_of_nil in Hin.
  - destruct (decide (env ∈ us.*1)) as [Hrest|Hrest].
    + apply IH; [|done]. intros u' Hu'. apply Hall. by right.
    + rewrite fmap_cons in Hin. apply elem_of_cons in Hin as [Hhead|?]; [|done].
      assert (lastMapping env a u = Some m) as ->.
      { unfold lastMapping. rewrite decide_True by done. f_equal. apply Hall; [by left|done]. }
      clear Hall IH. revert Hrest. generalize (Some m).
      induction us as [|u' us IH]; intros b Hrest; simpl; [done|].
      rewrite fmap_cons in Hrest. apply not_elem_of_cons in Hrest as [Hne Hrest].
      unfold lastMapping at 2. rewrite decide_False by done. by apply IH.
Qed.

(** X11.  What a pass of [Plan] that returns nil records for a declared
    environment that is not skipped: the context and the mapping that the
    planner gives for the first environment of the manifest bearing that
    name, on the context inspected from the namespaces.  The context is
    appended to the planned data once per occurrence of the name in the
    manifest, and the mapping is stored under the name: an environment
    declared a second time under the same name is planned as the first. *)
Theorem Plan_records_the_first_declaration :
  ∀ (w : World) (env : string),
    let g := galaxy w in
    let g' := galaxy (Plan w).2 in
    let d := dotGalaxy g in
    let c := cfg g in
    (Plan w).1 = Returned (Ok tt) →
    env ∈ ListEnvironments d →
    skipped c env = false →
    ∃ e ctx modified originalNs,
      GetEnvironment d env = Ok e ∧
      (inspected d (extensions g) (ListNamespaces d) NewContext).1 = Returned (Ok ctx) ∧
      ContextForEnvironment e (GetNamespaces c) ctx = Ok (modified, originalNs) ∧
      contextsAt (Modified g') env =
        contextsAt (Modified g) env
        ++ replicate (length (filter (fun x => x = env) (ListEnvironments d))) modified ∧
      envOriginalNs g' !! env = Some originalNs.
Proof.
  intros w env g g' d c Hok Hdecl Hskip.
  destruct (Plan_plans w) as [Hres Hg']. cbv zeta in Hres, Hg'.
  fold g d c in Hres, Hg'. fold g' in Hg'. rewrite Hok in Hres. symmetry in Hres.
  set (us := (plans d c (extensions g) (ListEnvironments d)).2) in *.
  assert (env ∈ us.*1) as Hin by by apply plans_complete.
  pose proof Hin as Hin'.
  apply list_elem_of_fmap in Hin' as ([env' p] & Hkey & Hu). simpl in Hkey. subst env'.
  pose proof (plans_entry _ _ _ _ _ Hu) as [_ Hplan]. simpl in Hplan.
  pose proof (plans_filter d c (extensions g) (ListEnvironments d) env p Hres Hplan) as Hfil.
  fold us in Hfil.
  assert (∀ u, u ∈ us → u.1 = env → u.2.2 = p.2) as Hsame.
  { intros u Hu' Hkey. apply plans_entry in Hu' as [_ Hu']. rewrite Hkey, Hplan in Hu'.
    by inversion Hu'. }
  apply planOf_Some in Hplan as (_ & ctx & e & Hins & Hfound & Hctx).
  destruct p as [modified originalNs].
  exists e, ctx, modified, originalNs. split_and!; [done..| |].
  - rewrite Hg', contextsAt_recordAllPlanned, Hfil. f_equal.
    generalize (length (filter (fun x => x = env) (ListEnvironments d))). intros n.
    induction n as [|n IH]; simpl; [done | by rewrite IH].
  - rewrite Hg', envOriginalNs_recordAllPlanned.
    by apply lastMapping_same.
Qed.

(** X12.  [Plan] does not report a requested environment that the manifest
    does not declare.  When environments are requested and none of them is
    declared, every declared environment is skipped: the pass records
    nothing, and it returns nil when the namespaces can be inspected.  With
    one such environment requested, [Apply] then fails with "is not found on
    planned data", without calling an applier. *)
Theorem Plan_ignores_an_undeclared_request :
  ∀ (w : World),
    let g := galaxy w in
    let d := dotGalaxy g in
    let c := cfg g in
    GetEnvironments c ≠ [] →
    (∀ env, env ∈ GetEnvironments c → env ∉ ListEnvironments d) →
    galaxy (Plan w).2 = g ∧
    (∀ ctx, (inspected d (extensions g) (ListNamespaces d) NewContext).1
              = Returned (Ok ctx) →
            (Plan w).1 = Returned (Ok tt)) ∧
    (∀ envName, GetEnvironments c = [envName] →
                Modified g !! envName = None →
                Apply (Plan w).2
                = (Returned (Err (NotOnPlannedData envName)), (Plan w).2)).
Proof.
  intros w g d c Hreq Hundeclared.
  destruct (Plan_plans w) as [Hres Hg']. cbv zeta in Hres, Hg'. fold g d c in Hres, Hg'.
  assert (∀ env, env ∈ ListEnvironments d → skipped c env = true) as Hskipped.
  { intros env Hdecl. apply skipped_true. split; [done|].
    intros Hin. by apply (Hundeclared env). }
  assert ((plans d c (extensions g) (ListEnvironments d)).2 = []) as Hnone.
  { destruct ((plans d c (extensions g) (ListEnvironments d)).2) as [|u us] eqn:Hus; [done|].
    assert (u ∈ (plans d c (extensions g) (ListEnvironments d)).2) as Hu
        by (rewrite Hus; by left).
    apply plans_entries in Hu as [Hdecl Hskip].
    rewrite (Hskipped _ Hdecl) in Hskip. done. }
  rewrite Hnone in Hg'. simpl in Hg'. split_and!.
  - done.
  - intros ctx Hins. rewrite Hres.
    rewrite (plans_all_skipped d c (extensions g) (ListEnvironments d) Hskipped).
    simpl. rewrite Hins. by destruct (ListEnvironments d).
  - intros envName Hsingle Hnoplan. rewrite Apply_unfold. cbv zeta. rewrite Hg'.
    unfold probeSingleEnv. fold c. rewrite Hsingle. simpl. by rewrite Hnoplan.
Qed.

(** *** Further properties: the directory of a namespace, and how often it
    is inspected *)

(** X13.  [GetNamespaceDir] checks the name before the directory: it gives
    the path [path.Join(baseDir, name)] exactly when the name is a declared
    namespace and the base directory exists; for a name that is not declared
    it answers "namespace informed does not exist", also when the base
    directory is missing; for a declared name without base directory it
    answers "baseDir is not a directory". *)
Theorem GetNamespaceDir_checks_name_then_directory :
  ∀ (d : DotGalaxy) (name : string),
    let nss := Spec_Namespaces (DotGalaxy_Spec d) in
    (∀ dir, GetNamespaceDir d name = Ok dir ↔
            name ∈ Names nss ∧ isDir (BaseDir nss) = true ∧
            dir = pathJoin (BaseDir nss) name) ∧
    (GetNamespaceDir d name = Err (NamespaceDoesNotExist name) ↔ name ∉ Names nss) ∧
    (GetNamespaceDir d name = Err (BaseDirNotDirectory (BaseDir nss)) ↔
     name ∈ Names nss ∧ isDir (BaseDir nss) = false) ∧
    Error (NamespaceDoesNotExist name) = "namespace informed does not exist: " +:+ name ∧
    Error (BaseDirNotDirectory (BaseDir nss))
      = "baseDir is not a directory: " +:+ BaseDir nss.
Proof.
  intros d name nss. unfold GetNamespaceDir. fold nss.
  destruct (stringSliceContains (Names nss) name) eqn:Hdecl; simpl.
  - apply stringSliceContains_true in Hdecl.
    destruct (isDir (BaseDir nss)) eqn:Hdir; simpl.
    + split_and!; [|split; [done | by intros ?]|split; [done | by intros [_ ?]]|done..].
      intros dir. split; [by intros [= <-] | by intros (_ & _ & ->)].
    + split_and!; [|split; [done | by intros ?]|split; [done | done]|done..].
      intros dir. split; [done | by intros (_ & ? & _)].
  - apply stringSliceContains_false in Hdecl. split_and!; [| |split|done..].
    + intros dir. split; [done | by intros (? & _)].
    + done.
    + done.
    + by intros [? _].
Qed.

Lemma inspected_Ok_events (d : DotGalaxy) (exts nss : list string) (ctx ctx' : Context) :
  let baseDir := BaseDir (Spec_Namespaces (DotGalaxy_Spec d)) in
  (inspected d exts nss ctx).1 = Returned (Ok ctx') →
  (inspected d exts nss ctx).2
  = map (fun ns => InspectedDir ns (pathJoin baseDir ns) exts) nss.
Proof.
  intros baseDir. revert ctx. induction nss as [|ns rest IH]; intros ctx; simpl; [done|].
  unfold GetNamespaceDir. fold baseDir.
  destruct (negb (stringSliceContains _ ns)); [done|].
  destruct (negb (isDir baseDir)); [done|].
  destruct (InspectDir ctx ns (pathJoin baseDir ns) exts) as [ctx1|e]; simpl; [|done].
  intros Hok. by rewrite (IH ctx1 Hok).
Qed.

Lemma loopEnvironments_plan_events (exts envs : list string) (w : World) :
  let d := dotGalaxy (galaxy w) in
  (loopEnvironments planContext exts envs w).1 = Returned (Ok tt) →
  events (loopEnvironments planContext exts envs w).2
  = events w ++ flat_map (fun _ => (inspected d exts (ListNamespaces d) NewContext).2) envs.
Proof.
  revert w. induction envs as [|env rest IH]; intros w; simpl.
  - intros _. by rewrite app_nil_r.
  - unfold bind. rewrite loopBody_planContext. cbv zeta.
    destruct (planOf (dotGalaxy (galaxy w)) (cfg (galaxy w)) exts env)
      as [[[p|]|e]|status]; simpl.
    + intros Hok. rewrite (IH _ Hok). simpl. by rewrite <- app_assoc.
    + intros Hok. rewrite (IH _ Hok). simpl. by rewrite <- app_assoc.
    + done.
    + done.
Qed.

(** X14.  A pass of [Plan] that returns nil has inspected every declared
    namespace, in order, once for every declared environment - the
    environments it skipped included - and has done nothing else besides
    writing the planned data: nothing is kept from one environment to the
    next. *)
Theorem Plan_inspects_every_namespace_for_every_environment :
  ∀ (w : World),
    let g := galaxy w in
    let d := dotGalaxy g in
    let exts := extensions g in
    let baseDir := BaseDir (Spec_Namespaces (DotGalaxy_Spec d)) in
    (Plan w).1 = Returned (Ok tt) →
    events (Plan w).2
    = events w
      ++ flat_map (fun _ => map (fun ns => InspectedDir ns (pathJoin baseDir ns) exts)
                                (ListNamespaces d))
                  (ListEnvironments d).
Proof.
  intros w g d exts baseDir Hok. rewrite Plan_unfold in Hok |- *. fold g d exts in Hok |- *.
  rewrite (loopEnvironments_plan_events exts (ListEnvironments d) w Hok). fold g d.
  destruct (ListEnvironments d) as [|env rest] eqn:Henvs; [done|].
  destruct ((inspected d exts (ListNamespaces d) NewContext).1) as [[ctx|e]|status] eqn:Hins.
  - by rewrite (inspected_Ok_events d exts (ListNamespaces d) NewContext ctx Hins).
  - simpl in Hok. unfold bind in Hok. rewrite loopBody_inspected in Hok.
    cbv zeta in Hok. fold g d in Hok. by rewrite Hins in Hok.
  - simpl in Hok. unfold bind in Hok. rewrite loopBody_inspected in Hok.
    cbv zeta in Hok. fold g d in Hok. by rewrite Hins in Hok.
Qed.

End Orchestrator.

(** ** [Plan] and the file system *)

(** X5.  [Plan] has no check of the base directory of its own.  With no
    environment in the manifest it returns nil and does nothing.  With no
    namespace in the manifest it consults no directory at all: it does the
    same on any two hosts, whatever their directories and their file
    inspector, and adds no event.  [Inspect], on a host without the base
    directory, returns "base directory not found" whatever the manifest
    declares; [Plan] there returns an error only when the manifest has an
    environment and a namespace, and the error is "baseDir is not a
    directory", before any inspection. *)
Theorem Plan_without_base_directory :
  ∀ (Context : Type) (NewContext : Context)
    (InspectDir : Context → string → string → list string → result Context)
    (isDir : string → bool) (pathJoin : string → string → string)
    (GetEnvironments GetNamespaces : Config → list string)
    (ContextForEnvironment :
       Environment → list string → Context → result (Context * gmap string string))
    (w : World Context),
    let spec := DotGalaxy_Spec (dotGalaxy Context (galaxy Context w)) in
    let baseDir := BaseDir (Spec_Namespaces spec) in
    let plan := Plan Context NewContext InspectDir isDir pathJoin
                     GetEnvironments GetNamespaces ContextForEnvironment in
    let inspect := Inspect Context NewContext InspectDir isDir pathJoin in
    (Spec_Environments spec = [] → plan w = (Returned (Ok tt), w)) ∧
    (Names (Spec_Namespaces spec) = [] →
     events Context (plan w).2 = events Context w ∧
     ∀ InspectDir' isDir' pathJoin',
       Plan Context NewContext InspectDir' isDir' pathJoin'
            GetEnvironments GetNamespaces ContextForEnvironment w
       = plan w) ∧
    (isDir baseDir = false →
     inspect w = (Returned (Err (BaseDirNotFound baseDir)), w)) ∧
    (isDir baseDir = false →
     Spec_Environments spec ≠ [] →
     Names (Spec_Namespaces spec) ≠ [] →
     plan w = (Returned (Err (BaseDirNotDirectory baseDir)), w)).
Proof.
  intros Context NewContext InspectDir isDir pathJoin GetEnvironments GetNamespaces
         ContextForEnvironment w spec baseDir plan inspect.
  split_and!.
  - intros Hnone. unfold plan. rewrite Plan_unfold, ListEnvironments_map.
    fold spec. by rewrite Hnone.
  - intros Hnone. split.
    + unfold plan. rewrite Plan_no_namespaces by done.
      apply callEach_planContext_events.
    + intros InspectDir' isDir' pathJoin'. unfold plan.
      by rewrite !Plan_no_namespaces by done.
  - intros Hdir. unfold inspect. rewrite Inspect_unfold. cbv zeta.
    fold spec baseDir. by rewrite Hdir.
  - intros Hdir Hdecl Hnames. unfold plan. by apply Plan_missing_base_directory.
Qed.

(** ** The planner *)

(** [plan.go] is not among the files of the package at hand: the planner
    below follows section 4.2 of the specification, step by step. *)
Module Planner.

(** Modelled from the spec: a file record (section 3: "its namespace, its
    relative path, and its logical release identity"), with the file name the
    suffix filter of step (d) is matched against. *)
Record File : Type := mkFile {
  fileNamespace : string;
  filePath : string;
  fileName : string;
  fileRelease : string;
}.

(** Modelled from the spec: the Context (section 3), a "mapping from
    namespace name to a list of discovered file records". *)
Definition Context : Type := gmap string (list File).

Definition NewContext : Context := ∅.

(** Modelled from the spec: "appending discovered file records for that
    namespace" (section 4.1), and step (f) of section 4.2. *)
Definition addFiles (ctx : Context) (ns : string) (files : list File) : Context :=
  <[ns := default [] (ctx !! ns) ++ files]> ctx.

(** Modelled from the spec: "suffix match against filename" (section 3). *)
Definition hasSuffix (s suffix : string) : bool :=
  let n := String.length s in
  let k := String.length suffix in
  (k <=? n) && String.eqb (String.substring (n - k) k s) suffix.

(** Modelled from the spec: step (d) of section 4.2. *)
Definition eligible (env : Environment) (f : File) : bool :=
  match FileSuffixes env with
  | [] => true
  | suffixes => existsb (hasSuffix (fileName f)) suffixes
  end.

(** Modelled from the spec: steps (e) and (f) of section 4.2. *)
Definition transformFile (env : Environment) (transformed : string) (f : File) : File :=
  mkFile transformed (filePath f) (fileName f)
         (ReleasePrefix (Environment_Transform env) +:+ fileRelease f).

(** Modelled from the spec: steps (a) and (b) of section 4.2, whether a
    namespace is part of the plan of the environment. *)
Definition inScope (env : Environment) (namespaceFilter : list string) (ns : string)
  : bool :=
  (match namespaceFilter with
   | [] => true
   | _ => stringSliceContains namespaceFilter ns
   end)
  && negb (stringSliceContains (SkipOnNamespaces env) ns).

(** Modelled from the spec: step (c) of section 4.2, the transformed name. *)
Definition transformedName (env : Environment) (ns : string) : string :=
  ns +:+ NamespaceSuffix (Environment_Transform env).

(** Modelled from the spec: the loop of section 4.2 over the namespaces of
    the base context, with the modified context and the original-namespace
    map built so far.  Step (c) fails with a conflict when the transformed
    name is already mapped. *)
Fixpoint planNamespaces (env : Environment) (namespaceFilter : list string)
         (base : list (string * list File)) (acc : Context * gmap string string)
  : result (Context * gmap string string) :=
  match base with
  | [] => Ok acc
  | (ns, files) :: rest =>
      if inScope env namespaceFilter ns then
        let transformed := transformedName env ns in
        match acc.2 !! transformed with
        | Some first => Err (NamespaceConflict transformed first ns)
        | None =>
            planNamespaces env namespaceFilter rest
              (addFiles acc.1 transformed
                        (map (transformFile env transformed)
                             (filter (fun f => eligible env f = true) files)),
               <[transformed := ns]> acc.2)
        end
      else planNamespaces env namespaceFilter rest acc
  end.

(** Modelled from the spec: [ContextForEnvironment(environment,
    namespaceFilter, baseContext)] of section 4.2, "for each namespace
    present in baseContext". *)
Definition ContextForEnvironment (env : Environment) (namespaceFilter : list string)
           (base : Context) : result (Context * gmap string string) :=
  planNamespaces env namespaceFilter (map_to_list base) (NewContext, ∅).

(** The environment's suffix is appended to every namespace, so two
    namespaces with the same transformed name have the same name. *)
Lemma list_ascii_of_string_app (s1 s2 : string) :
  String.list_ascii_of_string (s1 +:+ s2) = String.list_ascii_of_string s1 ++ String.list_ascii_of_string s2.
Proof. induction s1 as [|a s1 IH]; simpl; [done | by rewrite IH]. Qed.

Lemma transformedName_inj (env : Environment) (ns1 ns2 : string) :
  transformedName env ns1 = transformedName env ns2 → ns1 = ns2.
Proof.
  unfold transformedName. intros Heq.
  apply (f_equal String.list_ascii_of_string) in Heq.
  rewrite !list_ascii_of_string_app in Heq. apply app_inv_tail in Heq.
  apply (f_equal String.string_of_list_ascii) in Heq.
  by rewrite !String.string_of_list_ascii_of_string in Heq.
Qed.

(** So the check of step (c) never fires on the namespaces of a context:
    in this planner no two namespaces of one environment collide. *)
Lemma planNamespaces_no_conflict (env : Environment) (namespaceFilter : list string)
      (base : list (string * list File)) (acc : Context * gmap string string) :
  NoDup base.*1 →
  (∀ ns, ns ∈ base.*1 → acc.2 !! transformedName env ns = None) →
  ∃ planned, planNamespaces env namespaceFilter base acc = Ok planned.
Proof.
  revert acc. induction base as [|[ns files] rest IH]; intros acc Hnodup Hfree; simpl.
  - by exists acc.
  - rewrite fmap_cons in Hnodup. simpl in Hnodup.
    apply NoDup_cons in Hnodup as [Hnew Hnodup].
    destruct (inScope env namespaceFilter ns).
    + rewrite (Hfree ns) by (rewrite fmap_cons; by left).
      apply IH; [done|]. intros ns' Hin. simpl. rewrite lookup_insert_ne.
      * apply Hfree. rewrite fmap_cons. by right.
      * intros Hsame. apply transformedName_inj in Hsame. by subst ns'.
    + apply IH; [done|]. intros ns' Hin. apply Hfree. rewrite fmap_cons. by right.
Qed.

Lemma ContextForEnvironment_no_conflict (env : Environment)
      (namespaceFilter : list string) (base : Context) :
  ∃ planned, ContextForEnvironment env namespaceFilter base = Ok planned.
Proof.
  unfold ContextForEnvironment. apply planNamespaces_no_conflict.
  - apply NoDup_fst_map_to_list.
  - intros ns _. apply lookup_empty.
Qed.

End Planner.

(** ** A sample installation *)

(** A manifest with two environments and two namespaces, a small directory
    tree, appliers that answer as told, and the planner of the
    specification: the orchestrator run on concrete data. *)
Module Sample.

(** Modelled from the spec: [Config.GetEnvironments] and
    [Config.GetNamespaces], whose file is not among the sources: "a
    comma-list of environment names and a comma-list of namespace names, both
    optional; empty means all declared" (section 6). *)
Fixpoint splitCommas (s current : string) : list string :=
  match s with
  | EmptyString => [current]
  | String a rest =>
      if Ascii.eqb a ","%char then current :: splitCommas rest ""
      else splitCommas rest (current +:+ String a "")
  end.

Definition commaList (s : string) : list string :=
  match s with
  | EmptyString => []
  | _ => splitCommas s ""
  end.

Definition GetEnvironments (c : Config) : list string :=
  commaList (Config_Environments c).

Definition GetNamespaces (c : Config) : list string :=
  commaList (Config_Namespaces c).

(** The directory tree: the release names found in each directory (every
    file has the extension [.yaml]). *)
Definition listing (dir : string) : option (list string) :=
  if String.eqb dir "releases" then Some []
  else if String.eqb dir "releases/app" then Some ["web"; "worker"]
  else if String.eqb dir "releases/db" then Some ["postgres"]
  else None.

Definition isDir (dir : string) : bool :=
  match listing dir with Some _ => true | None => false end.

Definition pathJoin (dir name : string) : string := dir +:+ "/" +:+ name.

(** The file records of a directory. *)
Definition filesIn (ns baseDir : string) (names : list string) : list Planner.File :=
  map (fun name => Planner.mkFile ns (pathJoin baseDir (name +:+ ".yaml")) name name)
      names.

(** Modelled from the spec: [InspectDir] (section 4.1), which appends the
    files found in the directory to the context under the namespace, and
    fails when the directory does not exist. *)
Definition InspectDir (ctx : Planner.Context) (ns baseDir : string)
           (exts : list string) : result Planner.Context :=
  match listing baseDir with
  | None => Err (Foreign ("not a directory: " +:+ baseDir))
  | Some names => Ok (Planner.addFiles ctx ns (filesIn ns baseDir names))
  end.

Definition manifest : DotGalaxy :=
  mkDotGalaxy
    (mkSpec
       [mkEnvironment "dev" [] [] (mkTransform "-dev" "");
        mkEnvironment "prod" ["db"] [] (mkTransform "-prod" "live-")]
       (mkNamespaces "releases" [".yaml"] ["app"; "db"])).

Definition config (environments : string) (skipSecrets : bool) : Config :=
  mkConfig ".galaxy.yaml" false environments "" "error" skipSecrets.

(** Appliers that never fail, and a secret handler whose [Bootstrap]
    fails. *)
Definition allSucceed : list Event → Call → result unit :=
  fun _ _ => Ok tt.

Definition secretsUnavailable : list Event → Call → result unit :=
  fun _ c =>
    match receiver c, method c with
    | VaultHandler, Bootstrap => Err (Foreign "vault is sealed")
    | _, _ => Ok tt
    end.

Definition mapRange : gmap string string → list (string * string) := map_to_list.

Definition World : Type := World Planner.Context.

Definition fresh (c : Config) : World :=
  mkWorld Planner.Context (NewGalaxy Planner.Context manifest c) [].

(** [Inspect] on a host whose directories are the ones [present] accepts. *)
Definition InspectOn (present : string → bool) : World → outcome unit * World :=
  Inspect Planner.Context Planner.NewContext InspectDir present pathJoin.

Definition Inspect : World → outcome unit * World := InspectOn isDir.

Definition Plan : World → outcome unit * World :=
  Plan Planner.Context Planner.NewContext InspectDir isDir pathJoin
       GetEnvironments GetNamespaces Planner.ContextForEnvironment.

Definition Apply (answers : list Event → Call → result unit)
  : World → outcome unit * World :=
  Apply Planner.Context GetEnvironments answers mapRange.

(** The calls among the events of a run. *)
Definition invocations (evs : list Event) : list Call :=
  omap (fun ev => match ev with Invoked c => Some c | _ => None end) evs.

(** The receiver after a pass of [Plan] for the environments asked for. *)
Definition planned (environments : string) (skipSecrets : bool) : World :=
  (Plan (fresh (config environments skipSecrets))).2.

Definition vaultBootstrap (ns : string) : Call :=
  mkCall VaultHandler Bootstrap [AString ns; ABool false].
Definition vaultApply : Call := mkCall VaultHandler ApplyChanges [].
Definition landscaperBootstrap (ns originalNs : string) : Call :=
  mkCall Landscaper Bootstrap [AString ns; AString originalNs; ABool false].
Definition landscaperApply : Call := mkCall Landscaper ApplyChanges [].

(** The context inspected from the two namespaces of the sample. *)
Definition bothNamespaces : Planner.Context :=
  {[ "app" := filesIn "app" "releases/app" ["web"; "worker"];
     "db" := filesIn "db" "releases/db" ["postgres"] ]}.

(** The context planned for [prod]: [db] is skipped, [app] is renamed and
    its releases prefixed. *)
Definition prodContext : Planner.Context :=
  {[ "app-prod" :=
       [Planner.mkFile "app-prod" "releases/app/web.yaml" "web" "live-web";
        Planner.mkFile "app-prod" "releases/app/worker.yaml" "worker" "live-worker"] ]}.

(** The sample host on another manifest. *)
Definition freshIn (m : DotGalaxy) (c : Config) : World :=
  mkWorld Planner.Context (NewGalaxy Planner.Context m c) [].

(** A manifest that declares a namespace, [cache], without a directory. *)
Definition manifestWithoutDirectory : DotGalaxy :=
  mkDotGalaxy
    (mkSpec [mkEnvironment "dev" [] [] (mkTransform "-dev" "")]
            (mkNamespaces "releases" [".yaml"] ["app"; "cache"])).


(** A manifest that declares [prod] twice, with different transforms. *)
Definition manifestTwice : DotGalaxy :=
  mkDotGalaxy
    (mkSpec [mkEnvironment "prod" [] [] (mkTransform "-prod" "live-");
             mkEnvironment "prod" [] [] (mkTransform "-green" "green-")]
            (mkNamespaces "releases" [".yaml"] ["db"])).

(** The receiver of the sample after a sequence of calls. *)
Definition performs (ops : list Operation) (c : Config) : World :=
  performs Planner.Context Planner.NewContext InspectDir isDir pathJoin
           GetEnvironments GetNamespaces Planner.ContextForEnvironment allSucceed
           mapRange ops manifest c.

Example GetEnvironments_sample :
  GetEnvironments (config "" false) = [] ∧
  GetEnvironments (config "prod" false) = ["prod"] ∧
  GetEnvironments (config "dev,prod" false) = ["dev"; "prod"].
Proof. by vm_compute. Qed.

Example Plan_sample :
  (Plan (fresh (config "prod" false))).1 = Returned (Ok tt) ∧
  Modified _ (galaxy _ (planned "prod" false)) !! "prod" = Some [prodContext] ∧
  envOriginalNs _ (galaxy _ (planned "prod" false)) !! "prod"
    = Some {[ "app-prod" := "app" ]} ∧
  Modified _ (galaxy _ (planned "prod" false)) !! "dev" = None ∧
  envOriginalNs _ (galaxy _ (planned "prod" false)) !! "dev" = None.
Proof. by vm_compute. Qed.

Example Apply_sample :
  Apply allSucceed (fresh (config "" false))
    = (Returned (Err SingleEnvironmentRequired), fresh (config "" false)) ∧
  Apply allSucceed (fresh (config "dev,prod" false))
    = (Returned (Err SingleEnvironmentRequired), fresh (config "dev,prod" false)) ∧
  Apply allSucceed (fresh (config "prod" false))
    = (Returned (Err (NotOnPlannedData "prod")), fresh (config "prod" false)) ∧
  (Apply allSucceed (planned "prod" false)).1 = Returned (Ok tt) ∧
  invocations (events _ (Apply allSucceed (planned "prod" false)).2)
    = [vaultBootstrap "app-prod"; vaultApply;
       landscaperBootstrap "app-prod" "app"; landscaperApply].
Proof. by vm_compute. Qed.

Example Inspect_sample :
  (Inspect (fresh (config "" false))).1 = Returned (Ok tt) ∧
  length (contextsAt _ (original _ (galaxy _ (Inspect (fresh (config "" false))).2)) "dev")
    = 1 ∧
  InspectOn (fun _ => false) (fresh (config "" false))
    = (Returned (Err (BaseDirNotFound "releases")), fresh (config "" false)).
Proof. by vm_compute. Qed.

(** [Inspect] on the sample, whose manifest has two namespaces and whose
    base directory exists: it returns nil, and the original data of [dev]
    holds one context, with the files of both namespaces.  So "for every
    environment times every namespace it builds a context and appends it"
    does not hold: one context is appended per environment, not one per
    namespace. *)
Lemma Inspect_appends_one_context_per_environment :
  isDir (BaseDir (Spec_Namespaces (DotGalaxy_Spec manifest))) = true ∧
  Names (Spec_Namespaces (DotGalaxy_Spec manifest)) = ["app"; "db"] ∧
  (Inspect (fresh (config "" false))).1 = Returned (Ok tt) ∧
  original _ (galaxy _ (Inspect (fresh (config "" false))).2) !! "dev"
    = Some [bothNamespaces] ∧
  length (contextsAt _ (original _ (galaxy _ (Inspect (fresh (config "" false))).2)) "dev")
    ≠ length (Names (Spec_Namespaces (DotGalaxy_Spec manifest))).
Proof. by vm_compute. Qed.



(** The calls of [Apply] on the sample: the secret handler's [Bootstrap]
    receives the namespace and the dry-run flag, never the original
    namespace; when it fails, the release applier is not called for the
    namespace at all; with secrets skipped the secret handler is not called.
    So "each applier's [Bootstrap] is called exactly once with (namespace,
    originalNamespace, dryRun)" does not hold of the secret handler. *)
Lemma Apply_secret_handler_not_given_original_namespace :
  (Apply allSucceed (planned "dev" false)).1 = Returned (Ok tt) ∧
  invocations (events _ (Apply allSucceed (planned "dev" false)).2)
    = [vaultBootstrap "app-dev"; vaultApply;
       landscaperBootstrap "app-dev" "app"; landscaperApply;
       vaultBootstrap "db-dev"; vaultApply;
       landscaperBootstrap "db-dev" "db"; landscaperApply] ∧
  timesCalled (mkCall VaultHandler Bootstrap
                      [AString "app-dev"; AString "app"; ABool false])
              (invocations (events _ (Apply allSucceed (planned "dev" false)).2)) = 0 ∧
  timesCalled (mkCall VaultHandler Bootstrap
                      [AString "app-dev"; AString "app"; ABool false])
              (invocations (events _ (Apply allSucceed (planned "dev" false)).2)) ≠ 1 ∧
  (Apply secretsUnavailable (planned "dev" false)).1
    = Returned (Err (Foreign "vault is sealed")) ∧
  invocations (events _ (Apply secretsUnavailable (planned "dev" false)).2)
    = [vaultBootstrap "app-dev"] ∧
  (Apply allSucceed (planned "dev" true)).1 = Returned (Ok tt) ∧
  invocations (events _ (Apply allSucceed (planned "dev" true)).2)
    = [landscaperBootstrap "app-dev" "app"; landscaperApply;
       landscaperBootstrap "db-dev" "db"; landscaperApply].
Proof. by vm_compute. Qed.

(** Two passes of [Plan] on the sample: both return nil, and the planned
    data of [prod] holds one context after the first and two after the
    second.  So a second pass does not leave the planned data equal to the
    result of one pass. *)
Lemma Plan_twice_doubles_planned_data :
  (Plan (fresh (config "prod" false))).1 = Returned (Ok tt) ∧
  (Plan (planned "prod" false)).1 = Returned (Ok tt) ∧
  contextsAt _ (Modified _ (galaxy _ (planned "prod" false))) "prod"
    = [prodContext] ∧
  contextsAt _ (Modified _ (galaxy _ (Plan (planned "prod" false)).2)) "prod"
    = [prodContext; prodContext] ∧
  contextsAt _ (Modified _ (galaxy _ (Plan (planned "prod" false)).2)) "prod"
    ≠ contextsAt _ (Modified _ (galaxy _ (planned "prod" false))) "prod" ∧
  envOriginalNs _ (galaxy _ (Plan (planned "prod" false)).2)
    = envOriginalNs _ (galaxy _ (planned "prod" false)).
Proof. by vm_compute. Qed.

(** The ordering of the calls, on the sample. *)
Lemma Apply_secrets_before_releases_sample :
  (∀ m, mapRange m ≡ₚ map_to_list m) ∧
  ∃ calls,
    (Apply allSucceed (planned "dev" false)).2
      = mkWorld _ (galaxy _ (planned "dev" false))
                (events _ (planned "dev" false) ++ map Invoked calls) ∧
    (∀ before after ns originalNs dry,
        calls = before
                ++ mkCall Landscaper Bootstrap
                          [AString ns; AString originalNs; ABool dry] :: after →
        ∃ before',
          before = before' ++ [mkCall VaultHandler Bootstrap [AString ns; ABool dry];
                               mkCall VaultHandler ApplyChanges []]) ∧
    ∃ before after,
      calls = before
              ++ [vaultBootstrap "db-dev"; vaultApply;
                  landscaperBootstrap "db-dev" "db"; landscaperApply]
              ++ after.
Proof.
  assert (∀ m, mapRange m ≡ₚ map_to_list m) as Hrange by done.
  split; [done|].
  destruct (Apply_secrets_before_releases Planner.Context GetEnvironments allSucceed
              mapRange Hrange (planned "dev" false))
    as (calls & Hworld & _ & Hfirst & _ & Hall).
  exists calls. split_and!.
  - exact Hworld.
  - apply Hfirst. by vm_compute.
  - destruct Hall as (envName & Hprobe & Hblocks); [by vm_compute|].
    assert (envName = "dev") as -> by (vm_compute in Hprobe; congruence).
    apply (Hblocks "db-dev" "db"). by vm_compute.
Defined.

(** The counts of the calls, on the sample. *)
Lemma Apply_calls_once_per_namespace_sample :
  (∀ m, mapRange m ≡ₚ map_to_list m) ∧
  (Apply allSucceed (planned "dev" false)).1 = Returned (Ok tt) ∧
  ∃ calls,
    (Apply allSucceed (planned "dev" false)).2
      = mkWorld _ (galaxy _ (planned "dev" false))
                (events _ (planned "dev" false) ++ map Invoked calls) ∧
    timesCalled (landscaperBootstrap "app-dev" "app") calls = 1 ∧
    timesCalled (vaultBootstrap "app-dev") calls = 1 ∧
    timesCalled landscaperApply calls = 2 ∧
    timesCalled vaultApply calls = 2 ∧
    length calls = 8.
Proof.
  assert (∀ m, mapRange m ≡ₚ map_to_list m) as Hrange by done.
  assert ((Apply allSucceed (planned "dev" false)).1 = Returned (Ok tt)) as Hnil
      by by vm_compute.
  split_and!; [done..|].
  destruct (Apply_calls_once_per_namespace Planner.Context GetEnvironments allSucceed
              mapRange Hrange (planned "dev" false) Hnil)
    as (envName & calls & Hprobe & Hworld & Hper & Hrelease & Hsecret & Hlen).
  assert (envName = "dev") as -> by (vm_compute in Hprobe; congruence).
  exists calls. split_and!.
  - exact Hworld.
  - apply (Hper "app-dev" "app"). by vm_compute.
  - apply (Hper "app-dev" "app"). by vm_compute.
  - exact Hrelease.
  - exact Hsecret.
  - exact Hlen.
Defined.

(** A namespace without a directory ends the pass, in the exit of the
    process, although the only environment requested, [staging], is not one
    of the manifest and [dev] would be skipped. *)
Lemma Plan_inspects_before_skipping_sample :
  Spec_Environments (DotGalaxy_Spec manifestWithoutDirectory) ≠ [] ∧
  skipped GetEnvironments (config "staging" false) "dev" = true ∧
  Plan (freshIn manifestWithoutDirectory (config "staging" false))
  = (Exited 1,
     mkWorld Planner.Context
             (NewGalaxy Planner.Context manifestWithoutDirectory (config "staging" false))
             [InspectedDir "app" "releases/app" [".yaml"];
              InspectedDir "cache" "releases/cache" [".yaml"];
              LoggedFatal (Foreign "not a directory: releases/cache")]).
Proof.
  split_and!; [done | done |].
  destruct (Plan_inspects_before_skipping Planner.Context Planner.NewContext InspectDir
              isDir pathJoin GetEnvironments GetNamespaces Planner.ContextForEnvironment
              (freshIn manifestWithoutDirectory (config "staging" false)))
    as [_ Hrun].
  - done.
  - intros ctx Hgiven. vm_compute in Hgiven. discriminate Hgiven.
  - exact Hrun.
Defined.

(** [Inspect] and [Apply], in any order, do not make [Apply] succeed. *)
Lemma Apply_fails_before_Plan_sample :
  (CallPlan ∉ [CallInspect; CallApply; CallInspect]) ∧
  Apply allSucceed (performs [CallInspect; CallApply; CallInspect] (config "prod" false))
  = (Returned (Err (NotOnPlannedData "prod")),
     performs [CallInspect; CallApply; CallInspect] (config "prod" false)).
Proof.
  assert (CallPlan ∉ [CallInspect; CallApply; CallInspect]) as Hnot.
  { intros Hin. repeat (apply elem_of_cons in Hin as [Hin|Hin]; [discriminate Hin|]).
    by apply elem_of_nil in Hin. }
  split; [exact Hnot|].
  destruct (Apply_fails_before_Plan Planner.Context Planner.NewContext InspectDir isDir
              pathJoin GetEnvironments GetNamespaces Planner.ContextForEnvironment
              allSucceed mapRange manifest (config "prod" false)
              [CallInspect; CallApply; CallInspect] Hnot)
    as [_ [[Hlen _]|(envName & Hreq & Hrun)]].
  - by destruct Hlen.
  - inversion Hreq; subst envName. exact Hrun.
Defined.

(** With [prod] declared twice, the first declaration is planned twice:
    both contexts carry the suffix [-prod] and the prefix [live-]. *)
Lemma Plan_records_the_first_declaration_sample :
  (Plan (freshIn manifestTwice (config "prod" false))).1 = Returned (Ok tt) ∧
  "prod" ∈ ListEnvironments manifestTwice ∧
  skipped GetEnvironments (config "prod" false) "prod" = false ∧
  ∃ modified,
    Planner.ContextForEnvironment
      (mkEnvironment "prod" [] [] (mkTransform "-prod" "live-")) []
      {[ "db" := filesIn "db" "releases/db" ["postgres"] ]}
    = Ok (modified, {[ "db-prod" := "db" ]}) ∧
    contextsAt _ (Modified _ (galaxy _ (Plan (freshIn manifestTwice (config "prod" false))).2))
               "prod"
    = [modified; modified] ∧
    envOriginalNs _ (galaxy _ (Plan (freshIn manifestTwice (config "prod" false))).2)
      !! "prod" = Some {[ "db-prod" := "db" ]}.
Proof.
  assert ("prod" ∈ ListEnvironments manifestTwice) as Hdecl by by left.
  split_and!; [done | done | done |].
  destruct (Plan_records_the_first_declaration Planner.Context Planner.NewContext
              InspectDir isDir pathJoin GetEnvironments GetNamespaces
              Planner.ContextForEnvironment
              (freshIn manifestTwice (config "prod" false)) "prod"
              eq_refl Hdecl eq_refl)
    as (e & ctx & modified & originalNs & Hfound & Hctx & Hplanned & Hdata & Hmap).
  inversion Hfound; subst e. inversion Hctx; subst ctx.
  exists modified.
  assert (originalNs = {[ "db-prod" := "db" ]}) as ->.
  { vm_compute in Hplanned. inversion Hplanned. by vm_compute. }
  by split_and!.
Defined.

(** [staging] is requested and not declared: [Plan] returns nil and records
    nothing, and [Apply] answers that the environment is not planned. *)
Lemma Plan_ignores_an_undeclared_request_sample :
  GetEnvironments (config "staging" false) ≠ [] ∧
  (∀ env, env ∈ GetEnvironments (config "staging" false) → env ∉ ListEnvironments manifest) ∧
  (Plan (fresh (config "staging" false))).1 = Returned (Ok tt) ∧
  galaxy _ (Plan (fresh (config "staging" false))).2
  = NewGalaxy Planner.Context manifest (config "staging" false) ∧
  Apply allSucceed (Plan (fresh (config "staging" false))).2
  = (Returned (Err (NotOnPlannedData "staging")), (Plan (fresh (config "staging" false))).2).
Proof.
  assert (GetEnvironments (config "staging" false) ≠ []) as Hreq by done.
  assert (∀ env, env ∈ GetEnvironments (config "staging" false) →
                 env ∉ ListEnvironments manifest) as Hundeclared.
  { intros env Hin Hdecl.
    apply elem_of_cons in Hin as [->|Hin]; [|by apply elem_of_nil in Hin].
    repeat (apply elem_of_cons in Hdecl as [Hdecl|Hdecl]; [discriminate Hdecl|]).
    by apply elem_of_nil in Hdecl. }
  destruct (Plan_ignores_an_undeclared_request Planner.Context Planner.NewContext
              InspectDir isDir pathJoin GetEnvironments GetNamespaces
              Planner.ContextForEnvironment allSucceed
              mapRange (fresh (config "staging" false)) Hreq Hundeclared)
    as (Hsame & Hnil & Hnext).
  split_and!; [done | done | | done |].
  - by eapply Hnil.
  - by apply Hnext.
Defined.

(** Only [prod] is requested, and the two namespaces are inspected twice:
    once for [dev], which is skipped, and once for [prod]. *)
Lemma Plan_inspects_every_namespace_sample :
  (Plan (fresh (config "prod" false))).1 = Returned (Ok tt) ∧
  events _ (Plan (fresh (config "prod" false))).2
  = [InspectedDir "app" "releases/app" [".yaml"];
     InspectedDir "db" "releases/db" [".yaml"];
     InspectedDir "app" "releases/app" [".yaml"];
     InspectedDir "db" "releases/db" [".yaml"]].
Proof.
  split; [done|].
  apply (Plan_inspects_every_namespace_for_every_environment Planner.Context
           Planner.NewContext InspectDir isDir pathJoin GetEnvironments GetNamespaces
           Planner.ContextForEnvironment (fresh (config "prod" false))).
  reflexivity.
Defined.

End Sample.
